(** * A verified model of crawler.py

    The development follows the structure of the Python module:
    string helpers used by the URL tests, the [StatisticsCollector]
    class, the pure parts of [WebCrawler] ([is_valid_url],
    [is_within_site], [fetch_page], ...), and [crawl_worker] as an
    interleaving transition system in which every access to shared
    state ([url_queue], [stats], [stop_crawling], [pages_fetched]) is
    one atomic step of one worker thread.  A call that can end by an
    exception returns an [option], and a worker thread that an
    exception leaves stops where it is.  Printing and the politeness
    delay (a number of seconds that is not negative) are not
    modelled. *)

From Stdlib Require Import ZArith QArith Ascii String List Lia DecimalString.
From stdpp Require Import base gmap strings list fin_maps fin_sets sorting.

Set Warnings "-clear-no-such-hyp".

Local Open Scope string_scope.
Local Open Scope Z_scope.

(** ** Python string operations used by the crawler

    A [str] is the string of its code points, taken below U+0100: the
    range of a header decoded as latin-1 and of every ASCII URL.  Case
    conversion and white space are those of Python on that range; a
    [bytes] object is the string of its bytes. *)

Module PyStr.

(** The code points changed by [lower()]: A-Z, and U+00C0-U+00DE
    without the multiplication sign U+00D7. *)
Definition is_upper (c : ascii) : bool :=
  let n := nat_of_ascii c in
  (((65 <=? n) && (n <=? 90)) ||
   ((192 <=? n) && (n <=? 222) && negb (n =? 215)))%nat.

Definition lower_char (c : ascii) : ascii :=
  if is_upper c then ascii_of_nat (nat_of_ascii c + 32) else c.

(** [s.lower()] *)
Fixpoint lower (s : string) : string :=
  match s with
  | EmptyString => EmptyString
  | String c s' => String (lower_char c) (lower s')
  end.

(** [s.startswith(p)] *)
Definition startswith (s p : string) : bool := String.prefix p s.

(** [s.endswith(suf)]: some tail of [s] is [suf]. *)
Fixpoint endswith (s suf : string) : bool :=
  if String.eqb s suf then true
  else match s with
       | EmptyString => false
       | String _ s' => endswith s' suf
       end.

(** [needle in hay] *)
Fixpoint contains (hay needle : string) : bool :=
  if String.prefix needle hay then true
  else match hay with
       | EmptyString => false
       | String _ hay' => contains hay' needle
       end.

(** [s.split(sep)[0]] for a one-character separator. *)
Fixpoint split_head (sep : ascii) (s : string) : string :=
  match s with
  | EmptyString => EmptyString
  | String c s' => if Ascii.eqb c sep then EmptyString
                   else String c (split_head sep s')
  end.

(** White space of [str.strip()]: U+0009-U+000D, U+001C-U+001F, the
    blank, U+0085 (next line) and U+00A0 (no-break space). *)
Definition is_space (c : ascii) : bool :=
  let n := nat_of_ascii c in
  (((9 <=? n) && (n <=? 13)) || ((28 <=? n) && (n <=? 32)) ||
   (n =? 133) || (n =? 160))%nat.

Fixpoint lstrip (s : string) : string :=
  match s with
  | EmptyString => EmptyString
  | String c s' => if is_space c then lstrip s' else s
  end.

Fixpoint rstrip (s : string) : string :=
  match s with
  | EmptyString => EmptyString
  | String c s' =>
      match rstrip s' with
      | EmptyString => if is_space c then EmptyString else String c EmptyString
      | r => String c r
      end
  end.

Definition strip (s : string) : string := rstrip (lstrip s).

End PyStr.

(** ** Counters and dictionaries of counts

    [collections.Counter] and the [file_sizes] dictionary are finite
    maps from keys to counts.  [c[k] += 1] reads the current count
    (0 for a key a [Counter] does not hold) and stores its successor. *)

Section Counter.
Context `{Countable K}.

Definition counter_get (c : gmap K nat) (k : K) : nat := default 0%nat (c !! k).

Definition counter_incr (k : K) (c : gmap K nat) : gmap K nat :=
  <[k := S (counter_get c k)]> c.

(** [sum(c.values())] *)
Definition counter_total (c : gmap K nat) : nat :=
  map_fold (λ _ n acc, (n + acc)%nat) 0%nat c.
End Counter.

(** ** class StatisticsCollector *)

(** The five keys of [file_sizes]. *)
Definition LT_1KB : string := "< 1KB".
Definition KB1_10 : string := "1KB ~ <10KB".
Definition KB10_100 : string := "10KB ~ <100KB".
Definition KB100_1MB : string := "100KB ~ <1MB".
Definition GE_1MB : string := ">= 1MB".

Definition size_ranges : list string :=
  [LT_1KB; KB1_10; KB10_100; KB100_1MB; GE_1MB].

Record StatisticsCollector := mkStats {
  fetch_attempts : list (string * Z);
  successful_visits : list (string * Z * nat * string);
  discovered_urls : list (string * string);
  status_codes : gmap Z nat;
  file_sizes : gmap string nat;
  content_types : gmap string nat;
  unique_urls_extracted : gset string;
  unique_urls_within_site : gset string;
  unique_urls_outside_site : gset string;
  visited_urls : gset string
}.

(** [StatisticsCollector.__init__] *)
Definition StatisticsCollector_init : StatisticsCollector :=
  {| fetch_attempts := [];
     successful_visits := [];
     discovered_urls := [];
     status_codes := ∅;
     file_sizes := list_to_map ((λ k, (k, 0%nat)) <$> size_ranges);
     content_types := ∅;
     unique_urls_extracted := ∅;
     unique_urls_within_site := ∅;
     unique_urls_outside_site := ∅;
     visited_urls := ∅ |}.

(** [add_fetch_attempt(url, status_code)] *)
Definition add_fetch_attempt (url : string) (status_code : Z)
    (s : StatisticsCollector) : StatisticsCollector :=
  {| fetch_attempts := fetch_attempts s ++ [(url, status_code)];
     successful_visits := successful_visits s;
     discovered_urls := discovered_urls s;
     status_codes := counter_incr status_code (status_codes s);
     file_sizes := file_sizes s;
     content_types := content_types s;
     unique_urls_extracted := unique_urls_extracted s;
     unique_urls_within_site := unique_urls_within_site s;
     unique_urls_outside_site := unique_urls_outside_site s;
     visited_urls := visited_urls s |}.

(** [size / 1024] is Python's true division of two integers: the float
    nearest to the quotient, and [OverflowError] when that float would
    lie beyond the largest one, which is so from 2^1034 - 2^980 on in
    absolute value. *)
Definition float_overflow (size : Z) : bool := 2 ^ 1034 - 2 ^ 980 <=? Z.abs size.

(** [size_kb = size / 1024]; [None] is the [OverflowError].  The
    quotient is kept as a rational: it is compared with 1, 10, 100 and
    1024 only, which are floats, and rounding to the nearest float is
    monotone, so each comparison has the outcome it has on the exact
    quotient. *)
Definition size_kb (size : Z) : option Q :=
  if float_overflow size then None else Some (inject_Z size / inject_Z 1024)%Q.

Definition Qltb (a b : Q) : bool := if Qlt_le_dec a b then true else false.

(** The division and the [if]/[elif] chain of [add_successful_visit]:
    the key of [file_sizes] that is incremented for a page of [size]
    bytes, when the division returns. *)
Definition size_range (size : Z) : option string :=
  size_kb ← size_kb size;
  Some (if Qltb size_kb (inject_Z 1) then LT_1KB
        else if Qltb size_kb (inject_Z 10) then KB1_10
        else if Qltb size_kb (inject_Z 100) then KB10_100
        else if Qltb size_kb (inject_Z 1024) then KB100_1MB
        else GE_1MB).

(** [content_type.split(';')[0].strip()] *)
Definition clean_content_type (content_type : string) : string :=
  PyStr.strip (PyStr.split_head ";" content_type).

(** [add_successful_visit(url, size, outlinks, content_type)]: the
    collector as the call leaves it.  The record is appended, the
    content type counted and the URL marked before the division; when
    the division raises, the call ends there and no size range is
    counted.  The key of [file_sizes] that is incremented is one of the
    five keys created by [__init__], so the dictionary lookup cannot
    fail. *)
Definition add_successful_visit (url : string) (size : Z) (outlinks : nat)
    (content_type : string) (s : StatisticsCollector) : StatisticsCollector :=
  let clean := clean_content_type content_type in
  {| fetch_attempts := fetch_attempts s;
     successful_visits := successful_visits s ++ [(url, size, outlinks, clean)];
     discovered_urls := discovered_urls s;
     status_codes := status_codes s;
     file_sizes := match size_range size with
                   | Some k => counter_incr k (file_sizes s)
                   | None => file_sizes s
                   end;
     content_types := counter_incr clean (content_types s);
     unique_urls_extracted := unique_urls_extracted s;
     unique_urls_within_site := unique_urls_within_site s;
     unique_urls_outside_site := unique_urls_outside_site s;
     visited_urls := {[url]} ∪ visited_urls s |}.

(** [add_discovered_url(url, is_within_site)] *)
Definition add_discovered_url (url : string) (is_within_site : bool)
    (s : StatisticsCollector) : StatisticsCollector :=
  let indicator := if is_within_site then "OK" else "N_OK" in
  {| fetch_attempts := fetch_attempts s;
     successful_visits := successful_visits s;
     discovered_urls := discovered_urls s ++ [(url, indicator)];
     status_codes := status_codes s;
     file_sizes := file_sizes s;
     content_types := content_types s;
     unique_urls_extracted := {[url]} ∪ unique_urls_extracted s;
     unique_urls_within_site :=
       if is_within_site then {[url]} ∪ unique_urls_within_site s
       else unique_urls_within_site s;
     unique_urls_outside_site :=
       if is_within_site then unique_urls_outside_site s
       else {[url]} ∪ unique_urls_outside_site s;
     visited_urls := visited_urls s |}.

(** [is_visited(url)] *)
Definition is_visited (url : string) (s : StatisticsCollector) : bool :=
  bool_decide (url ∈ visited_urls s).

(** The dictionary returned by [get_statistics]. *)
Record Statistics := mkStatistics {
  st_fetch_attempts : nat;
  st_fetches_succeeded : nat;
  st_fetches_failed : nat;
  st_total_urls_extracted : nat;
  st_unique_urls_extracted : nat;
  st_unique_urls_within_site : nat;
  st_unique_urls_outside_site : nat;
  st_status_codes : gmap Z nat;
  st_file_sizes : gmap string nat;
  st_content_types : gmap string nat
}.

Definition is_success (code : Z) : bool := (200 <=? code) && (code <? 300).

(** [get_statistics()] *)
Definition get_statistics (s : StatisticsCollector) : Statistics :=
  let fetches_succeeded :=
    length (filter (λ a, is_success a.2 = true) (fetch_attempts s)) in
  let fetches_failed := (length (fetch_attempts s) - fetches_succeeded)%nat in
  {| st_fetch_attempts := length (fetch_attempts s);
     st_fetches_succeeded := fetches_succeeded;
     st_fetches_failed := fetches_failed;
     st_total_urls_extracted := length (discovered_urls s);
     st_unique_urls_extracted := size (unique_urls_extracted s);
     st_unique_urls_within_site := size (unique_urls_within_site s);
     st_unique_urls_outside_site := size (unique_urls_outside_site s);
     st_status_codes := status_codes s;
     st_file_sizes := file_sizes s;
     st_content_types := content_types s |}.

(** *** The collector as an object: method calls and their results

    Every method runs under [self.lock], so a call is one atomic
    transition of the collector returning a value. *)

Inductive call :=
| AddFetchAttempt (url : string) (status_code : Z)
| AddSuccessfulVisit (url : string) (size : Z) (outlinks : nat) (content_type : string)
| AddDiscoveredUrl (url : string) (is_within_site : bool)
| IsVisited (url : string)
| GetStatistics.

Inductive result :=
| RNone
| RBool (b : bool)
| RStats (st : Statistics)
| ROverflowError.

Definition exec (c : call) (s : StatisticsCollector) : StatisticsCollector * result :=
  match c with
  | AddFetchAttempt url code => (add_fetch_attempt url code s, RNone)
  | AddSuccessfulVisit url size n ct =>
      (add_successful_visit url size n ct s,
       if float_overflow size then ROverflowError else RNone)
  | AddDiscoveredUrl url w => (add_discovered_url url w s, RNone)
  | IsVisited url => (s, RBool (is_visited url s))
  | GetStatistics => (s, RStats (get_statistics s))
  end.

(** The collector after a sequence of calls. *)
Definition exec_all (cs : list call) (s : StatisticsCollector) : StatisticsCollector :=
  foldl (λ s c, (exec c s).1) s cs.

(** The calls that end by an exception. *)
Definition raises (c : call) : bool :=
  match c with
  | AddSuccessfulVisit _ size _ _ => float_overflow size
  | _ => false
  end.

(** The mutating calls: [recordFetchAttempt], [recordVisit], [recordDiscovery]. *)
Definition is_write (c : call) : bool :=
  match c with
  | AddFetchAttempt _ _ | AddSuccessfulVisit _ _ _ _ | AddDiscoveredUrl _ _ => true
  | IsVisited _ | GetStatistics => false
  end.

(** ** Library collaborators

    [urllib.parse] is outside the crawler: the crawler is modelled over
    any implementation of the two functions it calls directly.  Both
    parse the URL and raise [ValueError] for some texts (a bracket
    without its partner in the netloc, for one); [None] stands for
    that. *)

Record Urllib := mkUrllib {
  urlparse_netloc : string → option string;   (* urlparse(url).netloc *)
  urldefrag : string → option string          (* urldefrag(url)[0] *)
}.

(** *** urllib.robotparser.RobotFileParser

    The fields [can_fetch] reads.  [allowance] stands for the code of
    [can_fetch] after its three tests of the flags: it parses
    [urlparse(unquote(url))], which raises [ValueError] for some URLs
    ([None]), and then runs the loop over [entries] and
    [default_entry] (the grammar of robots.txt is not modelled); with
    no entry it grants access. *)

Record RobotFileParser := mkRobots {
  disallow_all : bool;
  allow_all : bool;
  last_checked : Z;
  allowance : string → string → option bool
}.

(** [RobotFileParser()] *)
Definition RobotFileParser_init : RobotFileParser :=
  {| disallow_all := false; allow_all := false; last_checked := 0;
     allowance := λ _ _, Some true |}.

(** What [urlopen] and the decoding of the body do inside [read()]. *)
Inductive robots_read :=
| RobotsFetched (now : Z) (rules : string → string → option bool)
| RobotsHTTPError (code : Z)
| RobotsRaised.

(** [read()]: the parser afterwards, and whether an exception left
    the call. *)
Definition RobotFileParser_read (o : robots_read) (rp : RobotFileParser)
    : RobotFileParser * bool :=
  match o with
  | RobotsFetched now rules =>
      ({| disallow_all := disallow_all rp; allow_all := allow_all rp;
          last_checked := now; allowance := rules |}, false)
  | RobotsHTTPError code =>
      if (code =? 401) || (code =? 403) then
        ({| disallow_all := true; allow_all := allow_all rp;
            last_checked := last_checked rp; allowance := allowance rp |}, false)
      else if (400 <=? code) && (code <? 500) then
        ({| disallow_all := disallow_all rp; allow_all := true;
            last_checked := last_checked rp; allowance := allowance rp |}, false)
      else (rp, false)
  | RobotsRaised => (rp, true)
  end.

(** [can_fetch(useragent, url)]; [None] is the [ValueError]. *)
Definition can_fetch (rp : RobotFileParser) (useragent url : string) : option bool :=
  if disallow_all rp then Some false
  else if allow_all rp then Some true
  else if last_checked rp =? 0 then Some false
  else allowance rp useragent url.

(** ** class WebCrawler *)

(** The attributes fixed by [__init__]. *)
Record WebCrawler := mkCrawler {
  seed_url : string;
  max_pages : Z;
  max_depth : Z;
  num_threads : nat;
  domain : string;
  robot_parser : RobotFileParser
}.

(** [WebCrawler.__init__]: [urlparse(seed_url)] is outside any [try],
    so its [ValueError] leaves the constructor ([None]); the
    [try]/[except] around [read()] keeps the parser as [read()] left
    it, whether or not it raised. *)
Definition WebCrawler_init (lib : Urllib) (seed : string) (max_pages max_depth : Z)
    (num_threads : nat) (robots : robots_read) : option WebCrawler :=
  netloc ← urlparse_netloc lib seed;
  Some {| seed_url := seed;
          max_pages := max_pages;
          max_depth := max_depth;
          num_threads := num_threads;
          domain := netloc;
          robot_parser := (RobotFileParser_read robots RobotFileParser_init).1 |}.

Definition user_agent : string := "USC-CSCI572-Crawler".

Definition allowed_content_types : list string :=
  ["text/html"; "application/pdf"; "application/msword";
   "application/vnd.openxmlformats-officedocument.wordprocessingml.document";
   "image/gif"; "image/jpeg"; "image/jpg"; "image/png"; "image/webp";
   "image/svg+xml"].

Definition excluded_extension_list : list string :=
  ["css"; "js"; "json"; "xml"; "bmp"; "mp3"; "mp4"; "wav"; "avi"; "mov";
   "mpeg"; "ram"; "m4v"; "wmv"; "rm"; "smil"; "swf"; "wma"; "zip"; "rar";
   "gz"; "tar"; "7z"; "exe"; "bin"; "dmg"; "iso"].

Definition newline : string := String (ascii_of_nat 10) EmptyString.

Fixpoint drop_last (s : string) : string :=
  match s with
  | EmptyString => EmptyString
  | String c EmptyString => EmptyString
  | String c s' => String c (drop_last s')
  end.

(** [self.excluded_extensions.match(url)]: the pattern
    [.*\.(css|js|...)$] with [re.IGNORECASE].  [.] does not cross a
    newline and [$] also matches before a final newline; below U+0100
    a letter of the pattern matches its two ASCII cases and nothing
    else. *)
Definition excluded_extensions_match (url : string) : bool :=
  let body := if PyStr.endswith url newline then drop_last url else url in
  negb (PyStr.contains body newline) &&
  existsb (λ ext, PyStr.endswith (PyStr.lower body) ("." +:+ ext))
          excluded_extension_list.

(** [is_valid_url(url)], reading [stats.visited_urls]; [None] is the
    [ValueError] that leaves [urldefrag] or [can_fetch]. *)
Definition is_valid_url (lib : Urllib) (c : WebCrawler) (url : string)
    (st : StatisticsCollector) : option bool :=
  url ← urldefrag lib url;
  if is_visited url st then Some false
  else if excluded_extensions_match url then Some false
  else allowed ← can_fetch (robot_parser c) user_agent url;
       if negb allowed then Some false
       else Some true.

(** [is_within_site(url)]; [None] is the [ValueError] of [urlparse]. *)
Definition is_within_site (lib : Urllib) (c : WebCrawler) (url : string)
    : option bool :=
  netloc ← urlparse_netloc lib url;
  Some (String.eqb netloc (domain c) || PyStr.endswith netloc ("." +:+ domain c)).

(** What [requests.get] does: it returns a response or raises.  An
    exception is named by the first [except] clause of [fetch_page]
    that it is an instance of. *)
Inductive get_outcome :=
| Responds (status_code : Z) (content : string) (content_type_header : option string)
| RaisesTimeout
| RaisesConnectionError
| RaisesOther.

(** The tuple returned by [fetch_page]. *)
Record fetch_result := mkFetch {
  f_status_code : Z;
  f_content : option string;
  f_content_type : option string;
  f_size : Z
}.

(** [fetch_page(url)] *)
Definition fetch_page (o : get_outcome) : fetch_result :=
  match o with
  | Responds status_code content header =>
      mkFetch status_code (Some content)
              (Some (clean_content_type (default "" header)))
              (Z.of_nat (String.length content))
  | RaisesTimeout => mkFetch 408 None None 0
  | RaisesConnectionError => mkFetch 503 None None 0
  | RaisesOther => mkFetch 500 None None 0
  end.

(** [extract_links(html_content, base_url)]: [anchors] are the
    [urljoin(base_url, tag['href'])] of the tags the parser yields, in
    order, up to the first error of the parser or of [urljoin].  An
    exception of [urldefrag] ends the loop in the same [except] clause,
    and the links found so far are returned. *)
Fixpoint extract_links (lib : Urllib) (anchors : list string) : list string :=
  match anchors with
  | [] => []
  | absolute_url :: rest =>
      match urldefrag lib absolute_url with
      | Some absolute_url =>
          if PyStr.startswith absolute_url "http"
          then absolute_url :: extract_links lib rest
          else extract_links lib rest
      | None => []
      end
  end.

(** [should_process_content_type(content_type)] *)
Definition should_process_content_type (content_type : string) : bool :=
  existsb (λ allowed, PyStr.contains (PyStr.lower content_type) allowed)
          allowed_content_types.

(** ** crawl_worker as a transition system

    [crawl_worker] has no [try] around its loop body, so an exception
    that leaves a call ends the thread, at the point [at_point] of
    [Raised]; the other threads go on. *)

(** Where a worker is in [crawl_worker], with the local variables that
    are live there.  Each point is the next access to shared state. *)
Inductive pc :=
| LoopTop                                       (* while not self.stop_crawling *)
| BudgetCheck                                   (* first  with self.fetch_lock *)
| QueueGet                                      (* self.url_queue.get(timeout=2) *)
| QueueEmpty                                    (* except Empty *)
| ValidCheck (url : string) (depth : Z)         (* self.is_valid_url(url) *)
| Reserve (url : string) (depth : Z)            (* second with self.fetch_lock *)
| Fetch (url : string) (depth : Z) (current_count : Z)   (* sleep; fetch_page *)
| RecordFetch (url : string) (depth : Z) (r : fetch_result) (* add_fetch_attempt *)
| ExtractLinks (url : string) (depth : Z) (r : fetch_result)
| Discover (url : string) (depth : Z) (r : fetch_result)
           (outlinks pending : list string)     (* add_discovered_url *)
| CheckVisited (url : string) (depth : Z) (r : fetch_result)
           (outlinks : list string) (link : string) (pending : list string)
| QueuePut (url : string) (depth : Z) (r : fetch_result)
           (outlinks : list string) (link : string) (pending : list string)
| RecordVisit (url : string) (depth : Z) (r : fetch_result) (outlinks : list string)
| Finished                                      (* the loop was left *)
| Raised (at_point : pc).                       (* an exception left crawl_worker *)

Record Worker := mkWorker {
  at_pc : pc;
  empty_queue_count : nat
}.

(** The state shared by the workers. *)
Record Shared := mkShared {
  url_queue : list (string * Z);
  stats : StatisticsCollector;
  stop_crawling : bool;
  pages_fetched : Z
}.

Record State := mkState {
  shared : Shared;
  workers : list Worker
}.

(** What the outside world contributes to a step. *)
Inductive event :=
| Tau
| Http (o : get_outcome)
| Anchors (absolute_urls : list string).

Definition max_empty_attempts : nat := 5.

Definition set_stats (st : StatisticsCollector) (sh : Shared) : Shared :=
  mkShared (url_queue sh) st (stop_crawling sh) (pages_fetched sh).

Definition set_stop (sh : Shared) : Shared :=
  mkShared (url_queue sh) (stats sh) true (pages_fetched sh).

Definition set_queue (q : list (string * Z)) (sh : Shared) : Shared :=
  mkShared q (stats sh) (stop_crawling sh) (pages_fetched sh).

Definition set_pages (n : Z) (sh : Shared) : Shared :=
  mkShared (url_queue sh) (stats sh) (stop_crawling sh) n.

(** The code that follows [add_fetch_attempt] up to the next shared
    access: lines 341-347 of the worker. *)
Definition after_record (url : string) (depth : Z) (r : fetch_result) : option pc :=
  if is_success (f_status_code r) then
    match f_content r with
    | None | Some EmptyString => Some LoopTop
    | Some _ =>
        match f_content_type r with
        | None => None   (* content_type.lower() on None: never returned by fetch_page *)
        | Some ct =>
            if should_process_content_type ct then
              if PyStr.contains ct "text/html" then Some (ExtractLinks url depth r)
              else Some (RecordVisit url depth r [])
            else Some LoopTop
        end
    end
  else Some LoopTop.

(** One atomic step of one worker. *)
Definition worker_step (lib : Urllib) (c : WebCrawler) (ev : event)
    (w : Worker) (sh : Shared) : option (Worker * Shared) :=
  let n := empty_queue_count w in
  match at_pc w, ev with
  | LoopTop, Tau =>
      if stop_crawling sh then Some (mkWorker Finished n, sh)
      else Some (mkWorker BudgetCheck n, sh)
  | BudgetCheck, Tau =>
      if max_pages c <=? pages_fetched sh then Some (mkWorker Finished n, set_stop sh)
      else Some (mkWorker QueueGet n, sh)
  | QueueGet, Tau =>
      match url_queue sh with
      | [] => Some (mkWorker QueueEmpty (S n), sh)
      | (url, depth) :: q =>
          let sh' := set_queue q sh in
          if max_depth c <? depth then Some (mkWorker LoopTop 0, sh')
          else match is_within_site lib c url with
               | Some false => Some (mkWorker LoopTop 0, sh')
               | Some true => Some (mkWorker (ValidCheck url depth) 0, sh')
               | None => Some (mkWorker (Raised QueueGet) 0, sh')
               end
      end
  | QueueEmpty, Tau =>
      if (max_empty_attempts <=? n)%nat && (0 <? pages_fetched sh)
      then Some (mkWorker Finished n, sh)
      else Some (mkWorker LoopTop n, sh)
  | ValidCheck url depth, Tau =>
      match is_valid_url lib c url (stats sh) with
      | Some true => Some (mkWorker (Reserve url depth) n, sh)
      | Some false => Some (mkWorker LoopTop n, sh)
      | None => Some (mkWorker (Raised (ValidCheck url depth)) n, sh)
      end
  | Reserve url depth, Tau =>
      if max_pages c <=? pages_fetched sh then Some (mkWorker Finished n, set_stop sh)
      else Some (mkWorker (Fetch url depth (pages_fetched sh + 1)) n,
                 set_pages (pages_fetched sh + 1) sh)
  | Fetch url depth _, Http o =>
      Some (mkWorker (RecordFetch url depth (fetch_page o)) n, sh)
  | RecordFetch url depth r, Tau =>
      match after_record url depth r with
      | Some next =>
          Some (mkWorker next n,
                set_stats (add_fetch_attempt url (f_status_code r) (stats sh)) sh)
      | None => None
      end
  | ExtractLinks url depth r, Anchors l =>
      let outlinks := extract_links lib l in
      Some (mkWorker (Discover url depth r outlinks outlinks) n, sh)
  | Discover url depth r outlinks [], Tau =>
      Some (mkWorker (RecordVisit url depth r outlinks) n, sh)
  | Discover url depth r outlinks (link :: pending), Tau =>
      match is_within_site lib c link with
      | Some is_within =>
          let sh' := set_stats (add_discovered_url link is_within (stats sh)) sh in
          if is_within
          then Some (mkWorker (CheckVisited url depth r outlinks link pending) n, sh')
          else Some (mkWorker (Discover url depth r outlinks pending) n, sh')
      | None =>
          Some (mkWorker (Raised (Discover url depth r outlinks (link :: pending))) n, sh)
      end
  | CheckVisited url depth r outlinks link pending, Tau =>
      if is_visited link (stats sh)
      then Some (mkWorker (Discover url depth r outlinks pending) n, sh)
      else Some (mkWorker (QueuePut url depth r outlinks link pending) n, sh)
  | QueuePut url depth r outlinks link pending, Tau =>
      Some (mkWorker (Discover url depth r outlinks pending) n,
            set_queue (url_queue sh ++ [(link, depth + 1)]) sh)
  | RecordVisit url depth r outlinks, Tau =>
      match f_content_type r with
      | Some ct =>
          Some (mkWorker (if float_overflow (f_size r)
                          then Raised (RecordVisit url depth r outlinks)
                          else LoopTop) n,
                set_stats (add_successful_visit url (f_size r) (length outlinks) ct
                             (stats sh)) sh)
      | None => None
      end
  | _, _ => None
  end.

(** A step of the crawl: worker [tid] takes its next step. *)
Definition step (lib : Urllib) (c : WebCrawler) (tid : nat) (ev : event)
    (s : State) : option State :=
  match workers s !! tid with
  | None => None
  | Some w =>
      match worker_step lib c ev w (shared s) with
      | None => None
      | Some (w', sh') => Some (mkState sh' (<[tid := w']> (workers s)))
      end
  end.

(** The crawl when [start_crawling] has created its threads. *)
Definition initial (c : WebCrawler) : State :=
  mkState (mkShared [(seed_url c, 0)] StatisticsCollector_init false 0)
          (replicate (num_threads c) (mkWorker LoopTop 0)).

(** Run a schedule: which worker moves, and what the world answers. *)
Fixpoint run (lib : Urllib) (c : WebCrawler) (sched : list (nat * event))
    (s : State) : option State :=
  match sched with
  | [] => Some s
  | (tid, ev) :: sched' =>
      match step lib c tid ev s with
      | None => None
      | Some s' => run lib c sched' s'
      end
  end.

Inductive reachable (lib : Urllib) (c : WebCrawler) : State → Prop :=
| reachable_initial : reachable lib c (initial c)
| reachable_step s tid ev s' :
    reachable lib c s → step lib c tid ev s = Some s' → reachable lib c s'.

(** Quantities of a state the invariants speak about. *)

(** A worker holds a reserved page (counted in [pages_fetched]) whose
    fetch attempt is not recorded yet. *)
Definition in_flight_pc (p : pc) : nat :=
  match p with
  | Fetch _ _ _ | RecordFetch _ _ _ => 1
  | _ => 0
  end.

Definition in_flight (ws : list Worker) : nat :=
  sum_list_with (λ w, in_flight_pc (at_pc w)) ws.

(** The frontier entry a worker is processing, once it passed the
    depth and site tests. *)
Definition entry_of (p : pc) : option (string * Z) :=
  match p with
  | ValidCheck url depth | Reserve url depth | Fetch url depth _
  | RecordFetch url depth _ | ExtractLinks url depth _
  | Discover url depth _ _ _ | CheckVisited url depth _ _ _ _
  | QueuePut url depth _ _ _ _ | RecordVisit url depth _ _ => Some (url, depth)
  | _ => None
  end.

(** The two [with self.fetch_lock] blocks. *)
Definition at_budget_test (p : pc) : bool :=
  match p with
  | BudgetCheck | Reserve _ _ => true
  | _ => false
  end.

(** The calls the crawler makes on its collector: a discovered link is
    always recorded with the flag [is_within_site(link)]. *)
Definition crawler_call (lib : Urllib) (c : WebCrawler) (k : call) : Prop :=
  match k with
  | AddDiscoveredUrl url flag => is_within_site lib c url = Some flag
  | AddFetchAttempt _ _ | AddSuccessfulVisit _ _ _ _ => True
  | IsVisited _ | GetStatistics => True
  end.

(** The page budget: every reserved page is recorded or in flight, the
    counter stays within [max_pages] (it stays 0 under a negative
    [max_pages]), and the stop flag is only up when the counter reached
    [max_pages]. *)
Definition budget_inv (c : WebCrawler) (s : State) : Prop :=
  let sh := shared s in
  pages_fetched sh =
    Z.of_nat (length (fetch_attempts (stats sh)) + in_flight (workers s)) ∧
  pages_fetched sh ≤ Z.max 0 (max_pages c) ∧
  (stop_crawling sh = true → max_pages c ≤ pages_fetched sh).

(** What the local variables of a worker satisfy at each point. *)
Definition pc_inv (lib : Urllib) (c : WebCrawler) (p : pc) : Prop :=
  match p with
  | ValidCheck url depth | Reserve url depth | Fetch url depth _ =>
      depth ≤ max_depth c ∧ is_within_site lib c url = Some true
  | RecordFetch url depth r =>
      depth ≤ max_depth c ∧ is_within_site lib c url = Some true ∧
      ∃ o, r = fetch_page o
  | ExtractLinks url depth r | Discover url depth r _ _
  | RecordVisit url depth r _ =>
      depth ≤ max_depth c ∧ is_within_site lib c url = Some true ∧
      is_Some (f_content_type r)
  | CheckVisited url depth r _ link _ | QueuePut url depth r _ link _ =>
      depth ≤ max_depth c ∧ is_within_site lib c url = Some true ∧
      is_Some (f_content_type r) ∧ is_within_site lib c link = Some true
  | LoopTop | BudgetCheck | QueueGet | QueueEmpty | Finished | Raised _ => True
  end.


(** The points a worker can be at while robots.txt admits no URL. *)
Definition before_dispatch (p : pc) : bool :=
  match p with
  | LoopTop | BudgetCheck | QueueGet | QueueEmpty | ValidCheck _ _ | Finished
  | Raised _ => true
  | _ => false
  end.

(** The state of a crawl in which no URL passes [is_valid_url]. *)
Definition blocked_inv (c : WebCrawler) (s : State) : Prop :=
  pages_fetched (shared s) = 0 ∧
  fetch_attempts (stats (shared s)) = [] ∧
  (0 < max_pages c → stop_crawling (shared s) = false) ∧
  Forall (λ w, before_dispatch (at_pc w) = true ∧
               (0 < max_pages c → at_pc w ≠ Finished)) (workers s).

(** The URLs of the visit records. *)
Definition visit_urls (s : StatisticsCollector) : list string :=
  (λ v, v.1.1.1) <$> successful_visits s.

(** How many visit records have a size in the range named [k]. *)
Definition visits_in_range (k : string) (s : StatisticsCollector) : nat :=
  length (List.filter (λ v, bool_decide (size_range v.1.1.2 = Some k))
            (successful_visits s)).

(** How many visit records have a size whose division raised. *)
Definition overflowed_visits (s : StatisticsCollector) : nat :=
  length (List.filter (λ v, float_overflow v.1.1.2) (successful_visits s)).

(** ** Counts over the record lists *)

(** How many fetch records carry [code]. *)
Definition attempts_with_code (code : Z) (s : StatisticsCollector) : nat :=
  length (List.filter (λ a, a.2 =? code) (fetch_attempts s)).

(** How many visit records carry the content type [ct]. *)
Definition visits_with_type (ct : string) (s : StatisticsCollector) : nat :=
  length (List.filter (λ v, String.eqb v.2 ct) (successful_visits s)).

(** The URLs of the discovery records written with [indicator]. *)
Definition discovered_with (indicator : string) (s : StatisticsCollector) : list string :=
  (List.filter (λ d, String.eqb d.2 indicator) (discovered_urls s)).*1.

(** The status codes counted as successes by [get_statistics]. *)
Definition success_codes (m : gmap Z nat) : gmap Z nat :=
  filter (λ kv, is_success kv.1 = true) m.

(** ** What holds of the entries and records of a crawl *)

(** The tests of [is_valid_url] other than the visited test. *)
Definition admissible (lib : Urllib) (c : WebCrawler) (url : string) : bool :=
  match urldefrag lib url with
  | Some url =>
      negb (excluded_extensions_match url) &&
      bool_decide (can_fetch (robot_parser c) user_agent url = Some true)
  | None => false
  end.

(** [absolute_url.startswith('http')] *)
Definition http_link (u : string) : bool := PyStr.startswith u "http".

(** ['text/html' in content_type] *)
Definition is_html (r : fetch_result) : bool :=
  match f_content_type r with
  | Some ct => PyStr.contains ct "text/html"
  | None => false
  end.

(** A fetch result that passed the tests of lines 341 and 343: a 2xx
    status, a body that is not empty and an allowed content type. *)
Definition accepted (r : fetch_result) : Prop :=
  is_success (f_status_code r) = true ∧
  ∃ content ct,
    f_content r = Some content ∧ content ≠ EmptyString ∧
    f_content_type r = Some ct ∧ clean_content_type ct = ct ∧
    should_process_content_type ct = true ∧
    f_size r = Z.of_nat (String.length content).

(** What the local variables of a worker satisfy past the
    [is_valid_url] test and past the tests on the fetch result. *)
Definition pc_facts (lib : Urllib) (c : WebCrawler) (p : pc) : Prop :=
  match p with
  | Reserve url _ | Fetch url _ _ | RecordFetch url _ _ =>
      admissible lib c url = true
  | ExtractLinks url _ r =>
      admissible lib c url = true ∧ accepted r ∧ is_html r = true
  | Discover url _ r _ pending =>
      admissible lib c url = true ∧ accepted r ∧ is_html r = true ∧
      Forall (λ u, http_link u = true) pending
  | CheckVisited url _ r _ link pending | QueuePut url _ r _ link pending =>
      admissible lib c url = true ∧ accepted r ∧ is_html r = true ∧
      http_link link = true ∧ Forall (λ u, http_link u = true) pending
  | RecordVisit url _ r outlinks =>
      admissible lib c url = true ∧ accepted r ∧
      (is_html r = false → outlinks = [])
  | LoopTop | BudgetCheck | QueueGet | QueueEmpty | ValidCheck _ _ | Finished
  | Raised _ => True
  end.

(** An entry of the queue: the seed, or a link pushed by a worker. *)
Definition queue_entry_ok (lib : Urllib) (c : WebCrawler) (e : string * Z) : Prop :=
  e = (seed_url c, 0) ∨
  (is_within_site lib c e.1 = Some true ∧ http_link e.1 = true ∧
   1 ≤ e.2 ≤ max_depth c + 1).

Definition frontier_inv (lib : Urllib) (c : WebCrawler) (s : State) : Prop :=
  Forall (queue_entry_ok lib c) (url_queue (shared s)) ∧
  Forall (λ w, ∀ url depth, entry_of (at_pc w) = Some (url, depth) → 0 ≤ depth)
         (workers s).

(** A visit record of the crawl. *)
Definition visit_ok (lib : Urllib) (c : WebCrawler)
    (v : string * Z * nat * string) : Prop :=
  let '(url, size, outlinks, ct) := v in
  is_within_site lib c url = Some true ∧ admissible lib c url = true ∧
  0 < size ∧ should_process_content_type ct = true ∧
  (PyStr.contains ct "text/html" = false → outlinks = 0%nat).

Definition records_inv (lib : Urllib) (c : WebCrawler) (st : StatisticsCollector) : Prop :=
  Forall (λ a, is_within_site lib c a.1 = Some true ∧ admissible lib c a.1 = true)
         (fetch_attempts st) ∧
  Forall (visit_ok lib c) (successful_visits st) ∧
  Forall (λ d, http_link d.1 = true) (discovered_urls st).

(** A worker past the tests on the fetch result holds a page whose
    fetch record, with a 2xx status, is in the list. *)
Definition recorded (st : StatisticsCollector) (p : pc) : Prop :=
  match p with
  | ExtractLinks url _ r | Discover url _ r _ _ | CheckVisited url _ r _ _ _
  | QueuePut url _ r _ _ _ | RecordVisit url _ r _ =>
      is_success (f_status_code r) = true ∧
      (url, f_status_code r) ∈ fetch_attempts st
  | _ => True
  end.

Definition post_record_pc (p : pc) : nat :=
  match p with
  | ExtractLinks _ _ _ | Discover _ _ _ _ _ | CheckVisited _ _ _ _ _ _
  | QueuePut _ _ _ _ _ _ | RecordVisit _ _ _ _ => 1
  | _ => 0
  end.

Definition visits_inv (s : State) : Prop :=
  let st := stats (shared s) in
  Forall (λ w, recorded st (at_pc w)) (workers s) ∧
  Forall (λ v, ∃ code, is_success code = true ∧ (v.1.1.1, code) ∈ fetch_attempts st)
         (successful_visits st) ∧
  (length (successful_visits st) +
   sum_list_with (λ w, post_record_pc (at_pc w)) (workers s)
   ≤ st_fetches_succeeded (get_statistics st))%nat.

(** A worker has left its loop only if the stop flag is up or a page
    was reserved. *)
Definition finish_inv (s : State) : Prop :=
  Forall (λ w, at_pc w = Finished →
               stop_crawling (shared s) = true ∨ 0 < pages_fetched (shared s))
         (workers s).

(** The links of its page a worker has already passed to
    [add_discovered_url], while the visit of the page is not recorded;
    they stay so when the worker ends by an exception in the loop over
    the links. *)
Definition links_done (p : pc) : nat :=
  match p with
  | Discover _ _ _ outlinks pending
  | Raised (Discover _ _ _ outlinks pending)
  | CheckVisited _ _ _ outlinks _ pending
  | QueuePut _ _ _ outlinks _ pending => length outlinks - length pending
  | RecordVisit _ _ _ outlinks => length outlinks
  | _ => 0
  end.

(** The links still to be processed are part of the outlinks. *)
Definition links_ok (p : pc) : Prop :=
  match p with
  | Discover _ _ _ outlinks pending => (length pending ≤ length outlinks)%nat
  | CheckVisited _ _ _ outlinks _ pending
  | QueuePut _ _ _ outlinks _ pending => (length pending < length outlinks)%nat
  | _ => True
  end.

(** The outlink counts of the visit records, added up. *)
Definition outlinks_total (st : StatisticsCollector) : nat :=
  sum_list_with (λ v, v.1.2) (successful_visits st).

Definition discovery_inv (s : State) : Prop :=
  Forall (λ w, links_ok (at_pc w)) (workers s) ∧
  length (discovered_urls (stats (shared s))) =
    (outlinks_total (stats (shared s)) +
     sum_list_with (λ w, links_done (at_pc w)) (workers s))%nat.

(** Until the first fetch is recorded, only the seed is in the queue
    and in the hands of the workers; from then on the first fetch
    record is the seed's. *)
Definition seed_first (c : WebCrawler) (s : State) : Prop :=
  match fetch_attempts (stats (shared s)) with
  | [] =>
      Forall (λ e, e.1 = seed_url c) (url_queue (shared s)) ∧
      Forall (λ w, ∀ url depth, entry_of (at_pc w) = Some (url, depth) →
                                url = seed_url c) (workers s)
  | a :: _ => a.1 = seed_url c
  end.

(** ** write_csv_files and write_report

    The rows handed to [csv.writer] and the lines written to the
    report file (each without its final newline). *)

(** [url.replace(',', '_')] *)
Fixpoint replace_comma (url : string) : string :=
  match url with
  | EmptyString => EmptyString
  | String ch rest =>
      String (if Ascii.eqb ch "," then "_"%char else ch) (replace_comma rest)
  end.

(** A value in a row: a string or an integer. *)
Inductive cell :=
| Text (s : string)
| Number (z : Z).

(** The rows of fetch_<site>.csv *)
Definition fetch_rows (st : StatisticsCollector) : list (list cell) :=
  [Text "URL"; Text "Status"] ::
  ((λ a, [Text (replace_comma a.1); Number a.2]) <$> fetch_attempts st).

(** The rows of visit_<site>.csv *)
Definition visit_rows (st : StatisticsCollector) : list (list cell) :=
  [Text "URL"; Text "Size (bytes)"; Text "# Outlinks"; Text "Content-Type"] ::
  ((λ v, [Text (replace_comma v.1.1.1); Number v.1.1.2;
          Number (Z.of_nat v.1.2); Text v.2]) <$> successful_visits st).

(** The rows of urls_<site>.csv *)
Definition urls_rows (st : StatisticsCollector) : list (list cell) :=
  [Text "URL"; Text "Indicator"] ::
  ((λ d, [Text (replace_comma d.1); Text d.2]) <$> discovered_urls st).

(** The URL of a row: its first cell. *)
Definition row_url (row : list cell) : option string :=
  match row with
  | Text u :: _ => Some u
  | _ => None
  end.

(** [str(n)] of an integer, as an f-string prints it. *)
Definition str_of_Z (z : Z) : string := NilZero.string_of_int (Z.to_int z).
Definition str_of_nat (n : nat) : string := str_of_Z (Z.of_nat n).

(** The dictionary of status code descriptions, with [.get(code, '')]. *)
Definition code_desc (code : Z) : string :=
  if code =? 200 then "OK"
  else if code =? 301 then "Moved Permanently"
  else if code =? 302 then "Found"
  else if code =? 304 then "Not Modified"
  else if code =? 401 then "Unauthorized"
  else if code =? 403 then "Forbidden"
  else if code =? 404 then "Not Found"
  else if code =? 408 then "Request Timeout"
  else if code =? 500 then "Internal Server Error"
  else if code =? 503 then "Service Unavailable"
  else "".

(** [sorted(stats['status_codes'].keys())] *)
Definition report_status_codes (snap : Statistics) : list Z :=
  merge_sort Z.le (elements (dom (st_status_codes snap))).

Definition status_line (snap : Statistics) (code : Z) : string :=
  let count := counter_get (st_status_codes snap) code in
  match code_desc code with
  | EmptyString => str_of_Z code +:+ ": " +:+ str_of_nat count
  | desc => str_of_Z code +:+ " " +:+ desc +:+ ": " +:+ str_of_nat count
  end.

(** The lines of the file sizes block; [None] is the [KeyError] of
    [stats['file_sizes'][size_range]]. *)
Definition file_size_lines (snap : Statistics) : option (list string) :=
  mapM (λ size_range, n ← st_file_sizes snap !! size_range;
                      Some (size_range +:+ ": " +:+ str_of_nat n)) size_ranges.

(** [sorted(stats['content_types'].items())]: the keys are distinct,
    so the pairs are ordered by their keys. *)
Definition report_content_types (snap : Statistics) : list (string * nat) :=
  merge_sort (λ a b, String.le a.1 b.1) (map_to_list (st_content_types snap)).

(** [write_report(output_dir, student_name, usc_id)]: the lines written. *)
Definition write_report (c : WebCrawler) (st : StatisticsCollector)
    (student_name usc_id : string) : option (list string) :=
  let snap := get_statistics st in
  sizes ← file_size_lines snap;
  Some ([ "Name: " +:+ student_name;
          "USC ID: " +:+ usc_id;
          "News site crawled: " +:+ domain c;
          "Number of threads: " +:+ str_of_nat (num_threads c);
          "";
          "Fetch Statistics";
          "================";
          "# fetches attempted: " +:+ str_of_nat (st_fetch_attempts snap);
          "# fetches succeeded: " +:+ str_of_nat (st_fetches_succeeded snap);
          "# fetches failed or aborted: " +:+ str_of_nat (st_fetches_failed snap);
          "";
          "Outgoing URLs:";
          "==============";
          "Total URLs extracted: " +:+ str_of_nat (st_total_urls_extracted snap);
          "# unique URLs extracted: " +:+ str_of_nat (st_unique_urls_extracted snap);
          "# unique URLs within News Site: "
            +:+ str_of_nat (st_unique_urls_within_site snap);
          "# unique URLs outside News Site: "
            +:+ str_of_nat (st_unique_urls_outside_site snap);
          "";
          "Status Codes:";
          "=============" ]
        ++ (status_line snap <$> report_status_codes snap)
        ++ [ ""; "File Sizes:"; "===========" ]
        ++ sizes
        ++ [ ""; "Content Types:"; "==============" ]
        ++ ((λ kv, kv.1 +:+ ": " +:+ str_of_nat kv.2) <$> report_content_types snap))%list.

(** The crawl of a single worker: the URLs in the queue and in the
    worker's hands are their own fragment-stripped forms, and the page
    the worker holds past the [is_valid_url] test is not yet visited. *)
Definition solo_pc (lib : Urllib) (st : StatisticsCollector) (p : pc) : Prop :=
  match p with
  | ValidCheck url _ => urldefrag lib url = Some url
  | Reserve url _ | Fetch url _ _ | RecordFetch url _ _
  | ExtractLinks url _ _ | RecordVisit url _ _ _ =>
      urldefrag lib url = Some url ∧ (url ∉ visited_urls st)
  | Discover url _ _ _ pending =>
      urldefrag lib url = Some url ∧ (url ∉ visited_urls st) ∧
      Forall (λ u, urldefrag lib u = Some u) pending
  | CheckVisited url _ _ _ link pending | QueuePut url _ _ _ link pending =>
      urldefrag lib url = Some url ∧ (url ∉ visited_urls st) ∧
      urldefrag lib link = Some link ∧ Forall (λ u, urldefrag lib u = Some u) pending
  | LoopTop | BudgetCheck | QueueGet | QueueEmpty | Finished | Raised _ => True
  end.

Definition solo_inv (lib : Urllib) (s : State) : Prop :=
  ∃ w, workers s = [w] ∧
       solo_pc lib (stats (shared s)) (at_pc w) ∧
       Forall (λ e, urldefrag lib e.1 = Some e.1) (url_queue (shared s)) ∧
       NoDup (visit_urls (stats (shared s))).

(** ** A reading of urllib.parse for plain absolute URLs

    [urlsplit]'s scheme and netloc splitting, and [urldefrag], for URLs
    with a lower-case scheme and without leading blanks, control
    characters, brackets in the host, or an empty query or parameter
    part: on these the parser does not raise and [urldefrag] returns
    the text before the first [#].  It serves the example crawls. *)

Module PyUrllib.

Definition is_alpha (c : ascii) : bool :=
  let n := nat_of_ascii c in
  (((65 <=? n) && (n <=? 90)) || ((97 <=? n) && (n <=? 122)))%nat.

Definition is_digit (c : ascii) : bool :=
  let n := nat_of_ascii c in ((48 <=? n) && (n <=? 57))%nat.

(** [scheme_chars]: letters, digits and [+-.] *)
Definition is_scheme_char (c : ascii) : bool :=
  is_alpha c || is_digit c || Ascii.eqb c "+" || Ascii.eqb c "-" || Ascii.eqb c ".".

(** The text after the first [:] when only scheme characters precede it. *)
Fixpoint after_scheme (s : string) : option string :=
  match s with
  | EmptyString => None
  | String c s' =>
      if Ascii.eqb c ":" then Some s'
      else if is_scheme_char c then after_scheme s' else None
  end.

Definition strip_scheme (url : string) : string :=
  match url with
  | String c _ =>
      if is_alpha c then default url (after_scheme url) else url
  | EmptyString => url
  end.

Definition is_delim (c : ascii) : bool :=
  Ascii.eqb c "/" || Ascii.eqb c "?" || Ascii.eqb c "#".

(** [_splitnetloc(url, 2)[0]] *)
Fixpoint until_delim (s : string) : string :=
  match s with
  | EmptyString => EmptyString
  | String c s' => if is_delim c then EmptyString else String c (until_delim s')
  end.

Definition netloc (url : string) : string :=
  match strip_scheme url with
  | String "/" (String "/" rest) => until_delim rest
  | _ => EmptyString
  end.

Definition defrag (url : string) : string := PyStr.split_head "#" url.

Definition lib : Urllib := mkUrllib (λ url, Some (netloc url)) (λ url, Some (defrag url)).

(** The text after the last [at]: [netloc.rpartition('@')[2]]. *)
Fixpoint after_last_at (s : string) : string :=
  match s with
  | EmptyString => EmptyString
  | String c s' =>
      if PyStr.contains s' "@" then after_last_at s'
      else if Ascii.eqb c "@" then s' else s
  end.

(** [urlparse(url).hostname]: the netloc without user information and
    port, in lower case. *)
Definition hostname (url : string) : string :=
  PyStr.lower (PyStr.split_head ":" (after_last_at (netloc url))).

End PyUrllib.

(** The scope test in the words of the specification: the host is the
    site's domain or a subdomain of it. *)
Definition host_in_scope (host site_domain : string) : Prop :=
  host = site_domain ∨ ∃ label, host = label +:+ "." +:+ site_domain.

(** ** Example crawls *)

Module Demo.

Definition seed : string := "https://example.com/".
Definition page_a : string := "https://example.com/a".

(** What [__init__] builds for the seed, a budget of 10 pages, depth
    16 and one thread. *)
Definition crawler_with (robots : robots_read) : WebCrawler :=
  {| seed_url := seed; max_pages := 10; max_depth := 16; num_threads := 1;
     domain := "example.com";
     robot_parser := (RobotFileParser_read robots RobotFileParser_init).1 |}.

(** robots.txt was read and allows everything. *)
Definition crawler : WebCrawler := crawler_with (RobotsFetched 1 (λ _ _, Some true)).

(** robots.txt could not be fetched: [read()] raised. *)
Definition crawler_no_robots : WebCrawler := crawler_with RobotsRaised.

Definition taus (tid n : nat) : list (nat * event) := replicate n (tid, Tau).

(** The single worker fetches the seed, an HTML page with two anchors
    to the same page. *)
Definition visit_seed : list (nat * event) :=
  taus 0 5 ++ [(0%nat, Http (Responds 200 "<html>" (Some "text/html; charset=utf-8")))]
  ++ taus 0 1 ++ [(0%nat, Anchors [page_a; page_a])]
  ++ taus 0 8.

(** The worker takes an entry from the queue and the server answers 404. *)
Definition fetch_missing : list (nat * event) :=
  taus 0 5 ++ [(0%nat, Http (Responds 404 "" None))] ++ taus 0 1.

Definition fetch_twice : list (nat * event) :=
  visit_seed ++ fetch_missing ++ fetch_missing.

(** The fetch of the seed times out; the worker then finds the queue
    empty five times. *)
Definition idle_exit : list (nat * event) :=
  taus 0 5 ++ [(0%nat, Http RaisesTimeout)] ++ taus 0 1 ++ taus 0 20.

(** A schedule stopped just before the worker's last step. *)
Definition before_idle_exit : list (nat * event) :=
  taus 0 5 ++ [(0%nat, Http RaisesTimeout)] ++ taus 0 1 ++ taus 0 19.

(** The seed is an HTML page without links: the worker fetches it with
    status 200, records the visit and then finds the queue empty five
    times. *)
Definition visit_plain : list (nat * event) :=
  taus 0 5 ++ [(0%nat, Http (Responds 200 "<html>" (Some "text/html")))]
  ++ taus 0 1 ++ [(0%nat, Anchors [])] ++ taus 0 2.

Definition idle_after_visit : list (nat * event) := visit_plain ++ taus 0 20.

Definition before_idle_after_visit : list (nat * event) := visit_plain ++ taus 0 19.

Definition state_after (c : WebCrawler) (sched : list (nat * event)) : State :=
  default (initial c) (run PyUrllib.lib c sched (initial c)).

End Demo.

(** * Properties *)

(** ** Strings *)

Lemma append_nil_l (s : string) : EmptyString +:+ s = s.
Proof. reflexivity. Qed.

Lemma append_cons (a : ascii) (p s : string) :
  String a p +:+ s = String a (p +:+ s).
Proof. reflexivity. Qed.

Lemma endswith_spec s suf :
  PyStr.endswith s suf = true ↔ ∃ p, s = p +:+ suf.
Proof.
  induction s as [|a s IH]; cbn [PyStr.endswith].
  - destruct (String.eqb EmptyString suf) eqn:E.
    + apply String.eqb_eq in E as <-.
      split; [exists EmptyString; reflexivity | reflexivity].
    + apply String.eqb_neq in E.
      split; [discriminate|]. intros [p Hp].
      destruct p; [rewrite append_nil_l in Hp; congruence |].
      rewrite append_cons in Hp. discriminate.
  - destruct (String.eqb (String a s) suf) eqn:E.
    + apply String.eqb_eq in E as <-.
      split; [exists EmptyString; reflexivity | reflexivity].
    + apply String.eqb_neq in E. rewrite IH. split.
      * intros [p ->]. exists (String a p). reflexivity.
      * intros [p Hp]. destruct p as [|b p].
        { rewrite append_nil_l in Hp. congruence. }
        rewrite append_cons in Hp. injection Hp as -> ->. eauto.
Qed.

(** ** Counters *)

Section CounterFacts.
Context `{Countable K}.
Implicit Types c : gmap K nat.

Lemma counter_total_empty : counter_total (∅ : gmap K nat) = 0%nat.
Proof. apply map_fold_empty. Qed.

Lemma counter_total_insert_fresh c k n :
  c !! k = None → counter_total (<[k := n]> c) = (n + counter_total c)%nat.
Proof.
  intros Hk. unfold counter_total.
  rewrite map_fold_insert_L; [reflexivity | intros; lia | assumption].
Qed.

Lemma counter_total_lookup c k n :
  c !! k = Some n → counter_total c = (n + counter_total (delete k c))%nat.
Proof.
  intros Hk. unfold counter_total.
  rewrite (map_fold_delete_L _ _ k n c); [reflexivity | intros; lia | assumption].
Qed.

Lemma counter_total_incr c k :
  counter_total (counter_incr k c) = S (counter_total c).
Proof.
  unfold counter_incr, counter_get.
  destruct (c !! k) as [n|] eqn:Hk; simpl.
  - rewrite <- insert_delete_eq.
    rewrite counter_total_insert_fresh by apply lookup_delete_eq.
    rewrite (counter_total_lookup c k n Hk). lia.
  - rewrite counter_total_insert_fresh by assumption. lia.
Qed.

Lemma counter_get_incr c k k' :
  counter_get (counter_incr k c) k' =
  if decide (k = k') then S (counter_get c k) else counter_get c k'.
Proof.
  unfold counter_incr. unfold counter_get at 1.
  rewrite lookup_insert. destruct (decide (k = k')); reflexivity.
Qed.

Lemma counter_incr_dom c k : dom (counter_incr k c) = {[k]} ∪ dom c.
Proof. unfold counter_incr. apply dom_insert_L. Qed.
End CounterFacts.

(** ** Size ranges *)

Lemma Qltb_quotient (size n : Z) :
  Qltb (inject_Z size / inject_Z 1024) (inject_Z n) = (size <? 1024 * n).
Proof.
  unfold Qltb. destruct (Qlt_le_dec _ _) as [Hlt|Hle].
  - symmetry. apply Z.ltb_lt. revert Hlt.
    unfold Qlt, Qdiv, Qmult, Qinv, inject_Z. simpl. lia.
  - symmetry. apply Z.ltb_ge. revert Hle.
    unfold Qle, Qdiv, Qmult, Qinv, inject_Z. simpl. lia.
Qed.

(** The chain of rational comparisons as integer thresholds on [size]. *)
Lemma size_range_thresholds (size : Z) :
  size_range size =
  if float_overflow size then None
  else Some (if size <? 1024 then LT_1KB
             else if size <? 10240 then KB1_10
             else if size <? 102400 then KB10_100
             else if size <? 1048576 then KB100_1MB
             else GE_1MB).
Proof.
  unfold size_range, size_kb. destruct (float_overflow size); [reflexivity|].
  cbn [mbind option_bind]. rewrite !Qltb_quotient. reflexivity.
Qed.

Lemma size_range_None (size : Z) :
  size_range size = None ↔ float_overflow size = true.
Proof.
  rewrite size_range_thresholds. destruct (float_overflow size); split; congruence.
Qed.

Lemma size_range_in_ranges (size : Z) (k : string) :
  size_range size = Some k → k ∈ size_ranges.
Proof.
  rewrite size_range_thresholds. unfold size_ranges.
  repeat case_match; intros [= <-]; set_solver.
Qed.

Lemma size_range_bounds (size : Z) :
  float_overflow size = false →
  (size_range size = Some LT_1KB ↔ size < 1024) ∧
  (size_range size = Some KB1_10 ↔ 1024 ≤ size < 10240) ∧
  (size_range size = Some KB10_100 ↔ 10240 ≤ size < 102400) ∧
  (size_range size = Some KB100_1MB ↔ 102400 ≤ size < 1048576) ∧
  (size_range size = Some GE_1MB ↔ 1048576 ≤ size).
Proof.
  intros Hfl. rewrite size_range_thresholds, Hfl.
  destruct (Z.ltb_spec size 1024); [|destruct (Z.ltb_spec size 10240);
    [|destruct (Z.ltb_spec size 102400); [|destruct (Z.ltb_spec size 1048576)]]];
  repeat split; intros; try lia; try discriminate; try reflexivity.
Qed.

(** ** The collector under sequences of calls *)

Lemma exec_all_snoc cs k s :
  exec_all (cs ++ [k]) s = (exec k (exec_all cs s)).1.
Proof. unfold exec_all. rewrite foldl_app. reflexivity. Qed.

Lemma exec_all_read_only cs s :
  forallb (λ k, negb (is_write k)) cs = true → exec_all cs s = s.
Proof.
  revert s. induction cs as [|k cs IH]; intros s Hcs; [reflexivity|].
  simpl in Hcs. apply andb_true_iff in Hcs as [Hk Hcs].
  change (exec_all (k :: cs) s) with (exec_all cs (exec k s).1).
  rewrite IH by assumption. destruct k; simpl in *; congruence.
Qed.

Lemma file_sizes_init_get k :
  counter_get (file_sizes StatisticsCollector_init) k = 0%nat.
Proof.
  unfold counter_get. simpl.
  repeat (rewrite lookup_insert; case_decide; [reflexivity|]).
  rewrite lookup_empty. reflexivity.
Qed.

Lemma file_sizes_init_dom k :
  k ∈ dom (file_sizes StatisticsCollector_init) ↔ k ∈ size_ranges.
Proof.
  change (file_sizes StatisticsCollector_init)
    with (list_to_map ((λ k, (k, 0%nat)) <$> size_ranges) : gmap string nat).
  rewrite dom_list_to_map_L, elem_of_list_to_set, <- list_fmap_compose.
  rewrite list_fmap_id. reflexivity.
Qed.

Lemma visits_in_range_snoc k s url size n ct :
  visits_in_range k (add_successful_visit url size n ct s) =
  ((if decide (size_range size = Some k) then 1 else 0) + visits_in_range k s)%nat.
Proof.
  unfold visits_in_range. cbn [add_successful_visit successful_visits].
  rewrite List.filter_app, length_app. cbn [List.filter fst snd].
  destruct (decide (size_range size = Some k)) as [He|Hne].
  - rewrite bool_decide_eq_true_2 by exact He. cbn. lia.
  - rewrite bool_decide_eq_false_2 by exact Hne. cbn. lia.
Qed.

Lemma overflowed_visits_snoc s url size n ct :
  overflowed_visits (add_successful_visit url size n ct s) =
  ((if float_overflow size then 1 else 0) + overflowed_visits s)%nat.
Proof.
  unfold overflowed_visits. cbn [add_successful_visit successful_visits].
  rewrite List.filter_app, length_app. cbn [List.filter fst snd].
  destruct (float_overflow size); cbn; lia.
Qed.

(** No visit record has an overflowing size when no call raised. *)
Lemma overflowed_visits_none cs :
  Forall (λ k, raises k = false) cs →
  overflowed_visits (exec_all cs StatisticsCollector_init) = 0%nat.
Proof.
  induction cs as [|k cs IH] using rev_ind; intros Hcs; [reflexivity|].
  apply Forall_app in Hcs as [Hcs Hk]. apply Forall_inv in Hk.
  rewrite exec_all_snoc. specialize (IH Hcs).
  destruct k; cbn [exec fst raises] in *; try assumption.
  rewrite overflowed_visits_snoc, Hk, IH. reflexivity.
Qed.

Lemma visits_in_float_range cs :
  Forall (λ k, raises k = false) cs →
  Forall (λ v, float_overflow v.1.1.2 = false)
         (successful_visits (exec_all cs StatisticsCollector_init)).
Proof.
  induction cs as [|k cs IH] using rev_ind; intros Hcs; [constructor|].
  apply Forall_app in Hcs as [Hcs Hk]. apply Forall_inv in Hk.
  rewrite exec_all_snoc. specialize (IH Hcs).
  destruct k; cbn [exec fst raises] in *; try assumption.
  cbn [add_successful_visit successful_visits].
  apply Forall_app. split; [assumption|]. by apply Forall_singleton.
Qed.

(** Every byte count of an object in memory is far below the sizes
    whose quotient overflows. *)
Lemma float_overflow_bytes (size : Z) :
  0 ≤ size < 2 ^ 63 → float_overflow size = false.
Proof.
  intros Hsize. unfold float_overflow. apply Z.leb_gt.
  rewrite Z.abs_eq by lia.
  assert (2 ^ 63 ≤ 2 ^ 1034 - 2 ^ 980) as Hle by (vm_compute; discriminate).
  destruct Hsize as [_ Hlt]. revert Hlt Hle.
  generalize (2 ^ 1034 - 2 ^ 980) (2 ^ 63). lia.
Qed.

(** The histograms agree with the record lists after any calls. *)
Lemma histograms_consistent cs :
  let s := exec_all cs StatisticsCollector_init in
  counter_total (status_codes s) = length (fetch_attempts s) ∧
  (counter_total (file_sizes s) + overflowed_visits s)%nat =
    length (successful_visits s) ∧
  (∀ k, counter_get (file_sizes s) k = visits_in_range k s) ∧
  (∀ k, k ∈ dom (file_sizes s) ↔ k ∈ size_ranges).
Proof.
  induction cs as [|k cs IH] using rev_ind.
  - split_and!.
    + apply counter_total_empty.
    + vm_compute. reflexivity.
    + intros k. apply file_sizes_init_get.
    + apply file_sizes_init_dom.
  - cbv zeta in *. rewrite exec_all_snoc.
    destruct IH as (Hst & Hfs & Hget & Hdom).
    destruct k as [u code|u size n ct|u b|u|]; cbn [exec fst];
      try (split_and!; assumption).
    + cbn [add_fetch_attempt status_codes fetch_attempts file_sizes successful_visits].
      rewrite counter_total_incr, length_app. cbn [length].
      split_and!; [lia | done..].
    + rewrite overflowed_visits_snoc.
      cbn [add_successful_visit status_codes fetch_attempts file_sizes successful_visits].
      rewrite length_app. cbn [length].
      pose proof (size_range_None size) as Hnone.
      pose proof (size_range_in_ranges size) as Hin.
      destruct (size_range size) as [k0|] eqn:Hk0.
      * assert (float_overflow size = false) as ->.
        { destruct (float_overflow size); [|reflexivity].
          destruct Hnone as [_ Hnone]. specialize (Hnone eq_refl). discriminate. }
        rewrite counter_total_incr. split_and!; [done | lia | |].
        -- intros k. rewrite counter_get_incr, visits_in_range_snoc, Hk0.
           destruct (decide (k0 = k)) as [->|Hne].
           ++ rewrite decide_True by reflexivity. rewrite Hget. reflexivity.
           ++ rewrite decide_False by congruence. rewrite Hget. reflexivity.
        -- intros k. rewrite counter_incr_dom, elem_of_union, elem_of_singleton, Hdom.
           specialize (Hin k0 eq_refl). split; [intros [->|]; done | auto].
      * rewrite (proj1 Hnone eq_refl). split_and!; [done | lia | | done].
        intros k. rewrite visits_in_range_snoc, Hk0.
        rewrite decide_False by discriminate. rewrite Hget. reflexivity.
Qed.

Lemma size_add_le (x : string) (X : gset string) :
  (size ({[x]} ∪ X) ≤ S (size X))%nat.
Proof.
  rewrite size_union_alt, size_singleton.
  assert (size (X ∖ {[x]}) ≤ size X)%nat.
  { apply subseteq_size. intros y Hy. apply elem_of_difference in Hy. tauto. }
  lia.
Qed.

Section CollectorOfCrawler.
Variables (lib : Urllib) (c : WebCrawler).

(** What the URL sets hold when every discovery carries the flag
    computed by [is_within_site]. *)
Lemma discovery_sets cs :
  Forall (crawler_call lib c) cs →
  let s := exec_all cs StatisticsCollector_init in
  (∀ u, u ∈ unique_urls_within_site s → is_within_site lib c u = Some true) ∧
  (∀ u, u ∈ unique_urls_outside_site s → is_within_site lib c u = Some false) ∧
  unique_urls_extracted s = unique_urls_within_site s ∪ unique_urls_outside_site s ∧
  (size (unique_urls_extracted s) ≤ length (discovered_urls s))%nat ∧
  (∀ u ind, (u, ind) ∈ discovered_urls s →
     ∃ flag, is_within_site lib c u = Some flag ∧
             ind = if flag then "OK" else "N_OK").
Proof.
  induction cs as [|k cs IH] using rev_ind; intros Hcs.
  - cbn. split_and!; solve [set_solver | cbn; lia].
  - apply Forall_app in Hcs as [Hcs Hk]. apply Forall_inv in Hk.
    specialize (IH Hcs). cbv zeta in *. rewrite exec_all_snoc.
    destruct IH as (Hin & Hout & Hun & Hsz & Hind).
    destruct k as [u code|u size n ct|url flag|u|]; simpl;
      try (split_and!; assumption).
    cbn [crawler_call] in Hk.
    destruct flag.
    + split_and!; [set_solver | assumption | set_solver | |].
      * rewrite length_app. simpl. pose proof (size_add_le url
          (unique_urls_extracted (exec_all cs StatisticsCollector_init))). lia.
      * intros u ind [Hu|Hu]%elem_of_app; [by apply Hind|].
        apply list_elem_of_singleton in Hu. injection Hu as -> ->.
        exists true. done.
    + split_and!; [assumption | set_solver | set_solver | |].
      * rewrite length_app. simpl. pose proof (size_add_le url
          (unique_urls_extracted (exec_all cs StatisticsCollector_init))). lia.
      * intros u ind [Hu|Hu]%elem_of_app; [by apply Hind|].
        apply list_elem_of_singleton in Hu. injection Hu as -> ->.
        exists false. done.
Qed.
End CollectorOfCrawler.

(** [visited_urls] holds exactly the URLs of the visit records. *)
Lemma visited_are_visits cs :
  let s := exec_all cs StatisticsCollector_init in
  visited_urls s = list_to_set (visit_urls s).
Proof.
  induction cs as [|k cs IH] using rev_ind; [reflexivity|].
  cbv zeta in *. rewrite exec_all_snoc.
  destruct k; simpl; try assumption.
  unfold visit_urls in *. simpl. rewrite fmap_app, list_to_set_app_L, IH.
  simpl. set_solver.
Qed.

(** ** Runs of the crawl *)

Lemma in_flight_insert ws tid w w' :
  ws !! tid = Some w →
  (in_flight (<[tid := w']> ws) + in_flight_pc (at_pc w) =
   in_flight ws + in_flight_pc (at_pc w'))%nat.
Proof.
  unfold in_flight. revert tid.
  induction ws as [|x ws IH]; intros [|tid] Hw; simpl in *; try discriminate.
  - injection Hw as ->. lia.
  - specialize (IH tid Hw). lia.
Qed.

Lemma in_flight_finished ws :
  Forall (λ w, at_pc w = Finished) ws → in_flight ws = 0%nat.
Proof.
  unfold in_flight. induction 1 as [|w ws Hw _ IH]; [reflexivity|].
  simpl. rewrite Hw, IH. reflexivity.
Qed.

(** Case analysis of a step: where the worker was and the branch it took. *)
Ltac worker_cases Hs :=
  match type of Hs with
  | worker_step _ _ ?ev (mkWorker ?p _) _ = Some _ =>
      destruct p, ev; try discriminate Hs;
      cbn [worker_step at_pc empty_queue_count] in Hs;
      repeat case_match; simplify_eq
  end.

(** Boolean tests as arithmetic facts, and implications whose premise
    is at hand. *)
Ltac arith_hyps :=
  repeat match goal with
  | H : (_ <=? _) = true |- _ => apply Z.leb_le in H
  | H : (_ <=? _) = false |- _ => apply Z.leb_gt in H
  | H : (_ <? _) = true |- _ => apply Z.ltb_lt in H
  | H : (_ <? _) = false |- _ => apply Z.ltb_ge in H
  | H : ?P → _, H' : ?P |- _ => specialize (H H')
  end.

Ltac step_cases H :=
  let Hw := fresh "Hw" in
  let Hs := fresh "Hs" in
  unfold step in H;
  match type of H with
  | context [workers ?s !! ?tid] =>
      destruct (workers s !! tid) as [[? ?]|] eqn:Hw; [|discriminate]
  end;
  match type of H with
  | context [worker_step ?l ?c ?ev ?w ?sh] =>
      destruct (worker_step l c ev w sh) as [[? ?]|] eqn:Hs; [|discriminate]
  end;
  injection H as <-;
  worker_cases Hs.

Section Runs.
Variables (lib : Urllib) (c : WebCrawler).

Lemma run_reachable sched s s' :
  reachable lib c s → run lib c sched s = Some s' → reachable lib c s'.
Proof.
  revert s. induction sched as [|[tid ev] sched IH]; intros s Hs Hrun; simpl in Hrun.
  - congruence.
  - destruct (step lib c tid ev s) as [s1|] eqn:Hstep; [|discriminate].
    eapply IH; [|eassumption]. econstructor; eassumption.
Qed.

(** The collector of a reachable state is the initial collector after
    the calls the workers made. *)
Lemma stats_trace s :
  reachable lib c s →
  ∃ cs, Forall (crawler_call lib c) cs ∧
        stats (shared s) = exec_all cs StatisticsCollector_init.
Proof.
  induction 1 as [|s tid ev s' Hreach [cs [Hcs Hst]] Hstep].
  - exists []. split; [constructor | reflexivity].
  - step_cases Hstep; cbn [shared stats set_stop set_queue set_pages set_stats];
      try (exists cs; split; assumption);
      match goal with
      | |- context [add_fetch_attempt ?u ?code _] =>
          exists (cs ++ [AddFetchAttempt u code])%list
      | |- context [add_discovered_url ?u ?b _] =>
          exists (cs ++ [AddDiscoveredUrl u b])%list
      | |- context [add_successful_visit ?u ?sz ?n ?ct _] =>
          exists (cs ++ [AddSuccessfulVisit u sz n ct])%list
      end;
      (split; [apply Forall_app; split; [assumption|];
               apply Forall_singleton; cbn [crawler_call]; done
             | rewrite exec_all_snoc, <- Hst; reflexivity]).
Qed.

Lemma worker_step_pc_inv ev w sh w' sh' :
  pc_inv lib c (at_pc w) →
  worker_step lib c ev w sh = Some (w', sh') →
  pc_inv lib c (at_pc w').
Proof.
  destruct w as [p n]. intros Hp Hs. cbn [at_pc] in Hp.
  worker_cases Hs; cbn [pc_inv at_pc] in *; try tauto.
  - (* QueueGet: the entry passed the depth and the site test *)
    split; [lia | assumption].
  - (* Fetch *) destruct Hp as (? & ?). eauto.
  - (* RecordFetch *)
    destruct Hp as (Hd & Hsite & o & ->).
    unfold after_record in *. repeat case_match; simplify_eq; cbn [pc_inv]; eauto.
Qed.

Lemma reachable_pc_inv s tid w :
  reachable lib c s → workers s !! tid = Some w → pc_inv lib c (at_pc w).
Proof.
  intros Hreach. revert tid w.
  induction Hreach as [|s tid0 ev s' Hreach IH Hstep]; intros tid w Hw.
  - cbn in Hw. apply lookup_replicate in Hw as [-> _]. exact I.
  - unfold step in Hstep.
    destruct (workers s !! tid0) as [w0|] eqn:Hw0; [|discriminate].
    destruct (worker_step lib c ev w0 (shared s)) as [[w1 sh1]|] eqn:Hs; [|discriminate].
    injection Hstep as <-. cbn [workers] in Hw.
    apply list_lookup_insert_Some in Hw as [(-> & -> & _)|[_ Hw]].
    + eapply worker_step_pc_inv; [|eassumption]. eauto.
    + eauto.
Qed.

Lemma budget_inv_initial : budget_inv c (initial c).
Proof.
  unfold budget_inv, initial, in_flight. cbn.
  assert (sum_list_with (λ w, in_flight_pc (at_pc w))
            (replicate (num_threads c) (mkWorker LoopTop 0)) = 0%nat) as ->.
  { induction (num_threads c); simpl; congruence. }
  split_and!; [reflexivity | lia | discriminate].
Qed.

Lemma after_record_not_in_flight url depth r p :
  after_record url depth r = Some p → in_flight_pc p = 0%nat.
Proof.
  unfold after_record. intros Hp. repeat case_match; simplify_eq; reflexivity.
Qed.

Lemma budget_inv_step s tid ev s' :
  budget_inv c s → step lib c tid ev s = Some s' → budget_inv c s'.
Proof.
  unfold budget_inv. intros (Hcount & Hmax & Hstop) Hstep.
  step_cases Hstep;
    match goal with
    | Hw : workers s !! tid = Some ?w |- context [<[tid := ?w']> (workers s)] =>
        pose proof (in_flight_insert _ _ _ w' Hw) as Hfl
    end;
    try match goal with
    | Ha : after_record _ _ _ = Some _ |- _ =>
        apply after_record_not_in_flight in Ha
    end;
    cbn [shared workers stats set_stop set_queue set_pages set_stats
         url_queue stop_crawling pages_fetched fetch_attempts add_fetch_attempt
         add_discovered_url add_successful_visit in_flight_pc at_pc] in *;
    rewrite ?length_app in *; cbn [length] in *;
    split_and!; intros; arith_hyps; try congruence; lia.
Qed.

Lemma reachable_budget_inv s : reachable lib c s → budget_inv c s.
Proof.
  induction 1; [apply budget_inv_initial | eapply budget_inv_step; eassumption].
Qed.

End Runs.

(** ** Example runs, and a crawl whose robots.txt was not read *)

(** A schedule that runs to its end leads to a reachable state. *)
Lemma state_after_reachable (c : WebCrawler) (sched : list (nat * event)) :
  is_Some (run PyUrllib.lib c sched (initial c)) →
  reachable PyUrllib.lib c (Demo.state_after c sched).
Proof.
  intros [s Hs]. unfold Demo.state_after. rewrite Hs. cbn [default].
  eapply run_reachable; [apply reachable_initial | exact Hs].
Qed.

Lemma visit_seed_runs :
  is_Some (run PyUrllib.lib Demo.crawler Demo.visit_seed (initial Demo.crawler)).
Proof. vm_compute. eexists. reflexivity. Qed.


Lemma before_idle_exit_runs :
  is_Some (run PyUrllib.lib Demo.crawler Demo.before_idle_exit (initial Demo.crawler)).
Proof. vm_compute. eexists. reflexivity. Qed.

Lemma before_idle_after_visit_runs :
  is_Some (run PyUrllib.lib Demo.crawler Demo.before_idle_after_visit
             (initial Demo.crawler)).
Proof. vm_compute. eexists. reflexivity. Qed.

(** [can_fetch] of a parser whose [read()] raised. *)
Lemma can_fetch_unread (useragent url : string) :
  can_fetch (RobotFileParser_read RobotsRaised RobotFileParser_init).1 useragent url
  = Some false.
Proof. reflexivity. Qed.

(** What [__init__] leaves in the crawler it builds. *)
Lemma WebCrawler_init_Some (lib : Urllib) (seed : string) (max_pages max_depth : Z)
    (num_threads : nat) (robots : robots_read) (c : WebCrawler) :
  WebCrawler_init lib seed max_pages max_depth num_threads robots = Some c →
  seed_url c = seed ∧ urlparse_netloc lib seed = Some (domain c) ∧
  robot_parser c = (RobotFileParser_read robots RobotFileParser_init).1.
Proof.
  unfold WebCrawler_init. destruct (urlparse_netloc lib seed); cbn; intros [= <-]; done.
Qed.

(** The example crawlers are the ones [__init__] builds. *)
Lemma crawler_with_init (robots : robots_read) :
  WebCrawler_init PyUrllib.lib Demo.seed 10 16 1 robots = Some (Demo.crawler_with robots).
Proof. reflexivity. Qed.

(** [is_valid_url] of a crawler whose parser was left unread: [False]
    once the URL is stripped of its fragment. *)
Lemma is_valid_url_unread (lib : Urllib) (c : WebCrawler) (url : string)
    (st : StatisticsCollector) :
  robot_parser c = (RobotFileParser_read RobotsRaised RobotFileParser_init).1 →
  is_valid_url lib c url st = (_ ← urldefrag lib url; Some false).
Proof.
  intros Hrp. unfold is_valid_url. rewrite Hrp.
  destruct (urldefrag lib url) as [u|]; [|reflexivity]. cbn [mbind option_bind].
  rewrite can_fetch_unread. cbn [negb mbind option_bind].
  repeat case_match; reflexivity.
Qed.

(** The seed is admitted when robots.txt was read and allows it, and
    rejected when reading it raised. *)
Example seed_admission :
  is_valid_url PyUrllib.lib Demo.crawler Demo.seed StatisticsCollector_init
    = Some true ∧
  is_valid_url PyUrllib.lib Demo.crawler_no_robots Demo.seed StatisticsCollector_init
    = Some false.
Proof. split; vm_compute; reflexivity. Qed.

(** When no URL passes [is_valid_url], no page is ever reserved or
    fetched, and with a positive budget no worker ever leaves its
    loop. *)
Lemma refusing_blocks_crawl (lib : Urllib) (c : WebCrawler) (s : State) :
  (∀ url st, is_valid_url lib c url st ≠ Some true) →
  reachable lib c s → blocked_inv c s.
Proof.
  intros Hrefuse. induction 1 as [|s tid ev s' Hreach IH Hstep].
  - unfold blocked_inv. cbn. split_and!; try reflexivity.
    apply Forall_replicate. split; [reflexivity | discriminate].
  - destruct IH as (Hp & Hf & Hstop & Hws).
    unfold blocked_inv.
    step_cases Hstep;
      match goal with
      | Hw : workers s !! tid = Some ?w |- _ =>
          pose proof (Forall_lookup_1 _ _ _ _ Hws Hw) as [Hb Hlive];
          cbn [at_pc before_dispatch] in Hb, Hlive; try discriminate Hb
      end;
      try match goal with
      | Hv : is_valid_url _ _ _ _ = Some true |- _ => by destruct (Hrefuse _ _ Hv)
      end;
      cbn [shared workers stats set_stop set_queue set_pages set_stats
           url_queue stop_crawling pages_fetched fetch_attempts] in *;
      (split_and!; [assumption | assumption | intros; arith_hyps; first [congruence | lia] |
        apply Forall_insert; [assumption |
          cbn [at_pc before_dispatch]; split; [reflexivity |
            intros; arith_hyps; first [discriminate | congruence | lia]]]]).
Qed.

(** With an unread robots.txt no page is ever reserved or fetched, and
    with a positive budget no worker ever leaves its loop. *)
Lemma unread_robots_blocks_crawl (lib : Urllib) (seed : string)
    (max_pages max_depth : Z) (num_threads : nat) (c : WebCrawler) (s : State) :
  WebCrawler_init lib seed max_pages max_depth num_threads RobotsRaised = Some c →
  reachable lib c s → blocked_inv c s.
Proof.
  intros (_ & _ & Hrp)%WebCrawler_init_Some. apply refusing_blocks_crawl.
  intros url st. rewrite (is_valid_url_unread lib c url st Hrp).
  by destruct (urldefrag lib url).
Qed.

(** * The claims *)




(** C2. In every reachable state the number of fetch records is at
    most [max_pages] (none at all under a negative [max_pages]), every
    entry a worker processes past the depth test has depth at most
    [max_depth], and a step that adds a fetch record is taken by a
    worker holding such an entry. *)
Theorem budget_respected (lib : Urllib) (c : WebCrawler) (s : State) :
  reachable lib c s →
  Z.of_nat (length (fetch_attempts (stats (shared s)))) ≤ Z.max 0 (max_pages c) ∧
  (0 ≤ max_pages c →
   Z.of_nat (length (fetch_attempts (stats (shared s)))) ≤ max_pages c) ∧
  (∀ tid w url depth,
     workers s !! tid = Some w → entry_of (at_pc w) = Some (url, depth) →
     depth ≤ max_depth c) ∧
  (∀ tid ev s',
     step lib c tid ev s = Some s' →
     fetch_attempts (stats (shared s')) ≠ fetch_attempts (stats (shared s)) →
     ∃ url depth r n,
       workers s !! tid = Some (mkWorker (RecordFetch url depth r) n) ∧
       depth ≤ max_depth c ∧
       fetch_attempts (stats (shared s')) =
         (fetch_attempts (stats (shared s)) ++ [(url, f_status_code r)])%list).
Proof.
  intros Hreach.
  destruct (reachable_budget_inv lib c s Hreach) as (Hcount & Hle & _).
  split_and!.
  - lia.
  - lia.
  - intros tid w url depth Hw He.
    pose proof (reachable_pc_inv lib c s tid w Hreach Hw) as Hp.
    destruct w as [p n]. cbn [at_pc] in *.
    destruct p; cbn [entry_of pc_inv] in *; simplify_eq; tauto.
  - intros tid ev s' Hstep Hnew.
    step_cases Hstep;
      cbn [shared stats set_stop set_queue set_pages set_stats fetch_attempts
           add_fetch_attempt add_discovered_url add_successful_visit] in Hnew;
      try congruence.
    match goal with
    | Hw : workers s !! tid = Some _ |- _ =>
        pose proof (reachable_pc_inv lib c s tid _ Hreach Hw) as Hp
    end.
    cbn [at_pc pc_inv] in Hp. destruct Hp as (Hd & _).
    do 4 eexists. split_and!; [reflexivity | exact Hd | reflexivity].
Qed.

Lemma budget_respected_witness :
  let s := Demo.state_after Demo.crawler Demo.fetch_twice in
  Z.of_nat (length (fetch_attempts (stats (shared s)))) ≤ max_pages Demo.crawler ∧
  (∀ tid w url depth,
     workers s !! tid = Some w → entry_of (at_pc w) = Some (url, depth) →
     depth ≤ max_depth Demo.crawler).
Proof.
  intros s.
  assert (reachable PyUrllib.lib Demo.crawler s) as Hreach.
  { apply state_after_reachable. vm_compute. eexists. reflexivity. }
  destruct (budget_respected PyUrllib.lib Demo.crawler s Hreach)
    as (_ & Hpages & Hdepth & _).
  split; [apply Hpages; vm_compute; discriminate | exact Hdepth].
Defined.

(** C3, as stated, fails: after the single worker has processed the
    seed page, whose two anchors name the same page, both pushes have
    enqueued that URL: the queue holds it twice. *)
Lemma duplicate_enqueue_counterexample :
  ¬ (∀ s, reachable PyUrllib.lib Demo.crawler s → NoDup (url_queue (shared s)).*1).
Proof.
  intros Hclaim.
  pose proof (Hclaim (Demo.state_after Demo.crawler Demo.visit_seed)
                (state_after_reachable _ _ visit_seed_runs)) as Hnodup.
  vm_compute in Hnodup.
  apply NoDup_cons in Hnodup as [Hnot _].
  apply Hnot. left.
Qed.

(** C3, amended. A worker enqueues a discovered link exactly when the
    link is within the site and [is_visited(link)] is false at its
    test.  Of every step of every worker: the queue is left as it was,
    or loses its head to a worker at [url_queue.get], or gains the link
    at depth + 1 from a worker at [url_queue.put]; a worker recording
    a link goes on to the visited test exactly when the link is within
    the site, and otherwise drops it (or ends, when [urlparse] raises
    on the link); a worker at the visited test
    goes on to the put exactly when the link is not in [visited_urls];
    there is no other way to the put.  The put leaves the collector,
    hence [visited_urls], unchanged: only the recording of a visit
    changes that set. *)
Theorem push_checks_visited (lib : Urllib) (c : WebCrawler) (s s' : State)
    (tid : nat) (ev : event) (w : Worker) :
  reachable lib c s →
  workers s !! tid = Some w →
  step lib c tid ev s = Some s' →
  (url_queue (shared s') = url_queue (shared s) ∨
   (at_pc w = QueueGet ∧ ∃ e, url_queue (shared s) = e :: url_queue (shared s')) ∨
   (∃ url depth r outlinks link pending,
      at_pc w = QueuePut url depth r outlinks link pending ∧
      url_queue (shared s') = (url_queue (shared s) ++ [(link, depth + 1)])%list)) ∧
  (∀ url depth r outlinks link pending,
     at_pc w = Discover url depth r outlinks (link :: pending) →
     workers s' !! tid = Some (mkWorker
       (match is_within_site lib c link with
        | Some true => CheckVisited url depth r outlinks link pending
        | Some false => Discover url depth r outlinks pending
        | None => Raised (Discover url depth r outlinks (link :: pending))
        end) (empty_queue_count w)) ∧
     url_queue (shared s') = url_queue (shared s)) ∧
  (∀ url depth r outlinks link pending,
     at_pc w = CheckVisited url depth r outlinks link pending →
     is_within_site lib c link = Some true ∧
     workers s' !! tid = Some (mkWorker
       (if bool_decide (link ∈ visited_urls (stats (shared s)))
        then Discover url depth r outlinks pending
        else QueuePut url depth r outlinks link pending) (empty_queue_count w)) ∧
     shared s' = shared s) ∧
  (∀ url depth r outlinks link pending,
     at_pc w = QueuePut url depth r outlinks link pending →
     is_within_site lib c link = Some true ∧
     url_queue (shared s') = (url_queue (shared s) ++ [(link, depth + 1)])%list ∧
     stats (shared s') = stats (shared s) ∧
     workers s' !! tid = Some (mkWorker (Discover url depth r outlinks pending)
                                 (empty_queue_count w))) ∧
  (∀ url depth r outlinks link pending n,
     workers s' !! tid = Some (mkWorker (QueuePut url depth r outlinks link pending) n) →
     at_pc w = CheckVisited url depth r outlinks link pending ∧
     link ∉ visited_urls (stats (shared s))) ∧
  (∀ url depth r outlinks link pending n,
     workers s' !! tid = Some (mkWorker (CheckVisited url depth r outlinks link pending) n) →
     at_pc w = Discover url depth r outlinks (link :: pending) ∧
     is_within_site lib c link = Some true) ∧
  (visited_urls (stats (shared s')) ≠ visited_urls (stats (shared s)) →
   ∃ url depth r outlinks, at_pc w = RecordVisit url depth r outlinks).
Proof.
  intros Hreach Hw Hstep.
  assert (tid < length (workers s))%nat as Hlt by (eapply lookup_lt_Some; eassumption).
  pose proof (reachable_pc_inv lib c s tid w Hreach Hw) as Hp.
  unfold step in Hstep. rewrite Hw in Hstep.
  destruct (worker_step lib c ev w (shared s)) as [[w' sh']|] eqn:Hs; [|discriminate].
  injection Hstep as <-. cbn [workers shared].
  rewrite list_lookup_insert_eq by assumption.
  destruct w as [p n]. cbn [at_pc empty_queue_count] in *.
  worker_cases Hs;
    cbn [pc_inv set_stop set_queue set_pages set_stats url_queue stats visited_urls
         add_fetch_attempt add_discovered_url add_successful_visit] in *;
    (split_and!;
     [ first [ by left
             | right; left; split; [reflexivity | eexists; reflexivity]
             | right; right; by do 6 eexists ]
     | intros ? ? ? ? ? ? Heq; try discriminate Heq; try simplify_eq
     | intros ? ? ? ? ? ? Heq; try discriminate Heq; try simplify_eq
     | intros ? ? ? ? ? ? Heq; try discriminate Heq; try simplify_eq
     | intros ? ? ? ? ? ? ? Heq; try discriminate Heq; try simplify_eq
     | intros ? ? ? ? ? ? ? Heq; try discriminate Heq; try simplify_eq
     | intros Hne; first [congruence | by do 4 eexists] ]);
    try (exfalso;
         match goal with
         | Ha : after_record _ _ _ = Some _ |- _ =>
             unfold after_record in Ha; repeat case_match; simplify_eq
         end; fail);
    unfold is_visited in *;
    repeat match goal with
    | H : is_within_site _ _ _ = _ |- _ => rewrite H
    | H : bool_decide _ = _ |- _ => rewrite H
    end;
    try (split_and!;
         first [ reflexivity | tauto
               | match goal with
                 | H : bool_decide _ = false |- _ => exact (bool_decide_eq_false_1 _ H)
                 end ]).
Qed.

Lemma push_checks_visited_witness :
  let s := Demo.state_after Demo.crawler (firstn 10 Demo.visit_seed) in
  let s' := Demo.state_after Demo.crawler (firstn 11 Demo.visit_seed) in
  url_queue (shared s') = (url_queue (shared s) ++ [(Demo.page_a, 0 + 1)])%list ∧
  stats (shared s') = stats (shared s).
Proof.
  intros s s'.
  assert (reachable PyUrllib.lib Demo.crawler s) as Hreach.
  { apply state_after_reachable. vm_compute. eexists. reflexivity. }
  assert (workers s !! 0%nat = Some (mkWorker
            (QueuePut Demo.seed 0 (fetch_page (Responds 200 "<html>"
                                     (Some "text/html; charset=utf-8")))
               [Demo.page_a; Demo.page_a] Demo.page_a [Demo.page_a]) 0)) as Hw.
  { vm_compute. reflexivity. }
  assert (step PyUrllib.lib Demo.crawler 0 Tau s = Some s') as Hstep.
  { vm_compute. reflexivity. }
  destruct (push_checks_visited PyUrllib.lib Demo.crawler s s' 0 Tau _ Hreach Hw Hstep)
    as (_ & _ & _ & Hput & _).
  destruct (Hput _ _ _ _ _ _ eq_refl) as (_ & Hq & Hst & _).
  split; assumption.
Defined.

(** C4. When [read()] raised in [__init__], the parser is left as
    constructed and [can_fetch] refuses every URL, so [is_valid_url]
    accepts no URL, and returns [False] for every URL that [urldefrag]
    accepts: the filter is closed, not open. *)
Theorem robots_unread_rejects_all (lib : Urllib) (seed : string)
    (max_pages max_depth : Z) (num_threads : nat) (c : WebCrawler) (url : string)
    (st : StatisticsCollector) :
  WebCrawler_init lib seed max_pages max_depth num_threads RobotsRaised = Some c →
  (∀ u, can_fetch (robot_parser c) user_agent u = Some false) ∧
  is_valid_url lib c url st ≠ Some true ∧
  (∀ stripped, urldefrag lib url = Some stripped →
               is_valid_url lib c url st = Some false).
Proof.
  intros (_ & _ & Hrp)%WebCrawler_init_Some.
  rewrite (is_valid_url_unread lib c url st Hrp), Hrp. split_and!.
  - intros u. apply can_fetch_unread.
  - by destruct (urldefrag lib url).
  - by intros stripped ->.
Qed.

Lemma robots_unread_rejects_all_witness :
  is_valid_url PyUrllib.lib Demo.crawler_no_robots Demo.seed StatisticsCollector_init
    = Some false.
Proof.
  destruct (robots_unread_rejects_all PyUrllib.lib Demo.seed 10 16 1
              Demo.crawler_no_robots Demo.seed StatisticsCollector_init
              (crawler_with_init RobotsRaised)) as (_ & _ & Hfalse).
  apply (Hfalse Demo.seed). reflexivity.
Defined.

(** C5, as stated, fails: with the seed https://example.com/ the URL
    https://example.com:8080/x has the host example.com, the site's
    own domain, and [is_within_site] answers [False] because the
    netloc example.com:8080 is compared. *)
Lemma is_within_site_host_counterexample :
  ¬ (∀ url, is_within_site PyUrllib.lib Demo.crawler url = Some true ↔
            host_in_scope (PyUrllib.hostname url) (PyUrllib.hostname Demo.seed)).
Proof.
  intros Hclaim.
  destruct (Hclaim "https://example.com:8080/x") as [_ Hback].
  assert (is_within_site PyUrllib.lib Demo.crawler "https://example.com:8080/x"
          = Some true)
    as Hin by (apply Hback; left; vm_compute; reflexivity).
  vm_compute in Hin. discriminate.
Qed.

(** C5, amended. [is_within_site(url)] is true exactly when the netloc
    of the URL (user information, host and port as written) is the
    netloc of the seed URL or ends with a dot followed by it. *)
Theorem is_within_site_netloc (lib : Urllib) (seed : string) (max_pages max_depth : Z)
    (num_threads : nat) (robots : robots_read) (c : WebCrawler) (url : string) :
  WebCrawler_init lib seed max_pages max_depth num_threads robots = Some c →
  is_within_site lib c url = Some true ↔
  ∃ netloc site, urlparse_netloc lib url = Some netloc ∧
                 urlparse_netloc lib seed = Some site ∧
                 host_in_scope netloc site.
Proof.
  intros (_ & Hseed & _)%WebCrawler_init_Some.
  unfold is_within_site, host_in_scope. rewrite Hseed.
  destruct (urlparse_netloc lib url) as [netloc|]; cbn [mbind option_bind].
  - split.
    + intros [= Hin]. exists netloc, (domain c).
      rewrite orb_true_iff, String.eqb_eq, endswith_spec in Hin. done.
    + intros (n & d & [= <-] & [= <-] & Hin). f_equal.
      rewrite orb_true_iff, String.eqb_eq, endswith_spec. done.
  - split; [discriminate|]. intros (n & d & Hn & _). discriminate.
Qed.

Lemma is_within_site_netloc_witness :
  is_within_site PyUrllib.lib Demo.crawler "https://www.example.com/a" = Some true ↔
  ∃ netloc site,
    urlparse_netloc PyUrllib.lib "https://www.example.com/a" = Some netloc ∧
    urlparse_netloc PyUrllib.lib Demo.seed = Some site ∧
    host_in_scope netloc site.
Proof.
  apply (is_within_site_netloc PyUrllib.lib Demo.seed 10 16 1
           (RobotsFetched 1 (λ _ _, Some true)) Demo.crawler).
  apply crawler_with_init.
Defined.

(** C6. [fetch_page] turns a timeout into status 408, a connection
    error into 503, any other exception into 500 and a response into
    its own status code.  In every reachable state each reserved page
    is recorded or still in flight, and a worker about to fetch can,
    whatever [requests.get] does, take the fetch step and then the
    recording step, which appends one fetch record with the status
    code [fetch_page] returned; when all workers have finished there
    are as many fetch records as reserved pages. *)
Theorem fetch_always_recorded (lib : Urllib) (c : WebCrawler) (s : State) :
  reachable lib c s →
  (f_status_code (fetch_page RaisesTimeout) = 408 ∧
   f_status_code (fetch_page RaisesConnectionError) = 503 ∧
   f_status_code (fetch_page RaisesOther) = 500 ∧
   ∀ code body header, f_status_code (fetch_page (Responds code body header)) = code) ∧
  pages_fetched (shared s) =
    Z.of_nat (length (fetch_attempts (stats (shared s))) + in_flight (workers s)) ∧
  (∀ tid url depth count n o,
     workers s !! tid = Some (mkWorker (Fetch url depth count) n) →
     ∃ s1 s2,
       step lib c tid (Http o) s = Some s1 ∧
       step lib c tid Tau s1 = Some s2 ∧
       fetch_attempts (stats (shared s2)) =
         (fetch_attempts (stats (shared s)) ++ [(url, f_status_code (fetch_page o))])%list ∧
       in_flight (workers s) = S (in_flight (workers s2))) ∧
  (Forall (λ w, at_pc w = Finished) (workers s) →
   pages_fetched (shared s) = Z.of_nat (length (fetch_attempts (stats (shared s))))).
Proof.
  intros Hreach.
  pose proof (reachable_budget_inv lib c s Hreach) as (Hcount & _).
  split_and!; try reflexivity; [exact Hcount | | ].
  2: { intros Hdone. rewrite Hcount, (in_flight_finished _ Hdone). f_equal. lia. }
  - intros tid url depth count n o Hw.
    assert (tid < length (workers s))%nat as Hlt by (eapply lookup_lt_Some; eassumption).
    assert (∃ p, after_record url depth (fetch_page o) = Some p) as [p Hp].
    { destruct o; unfold after_record; cbn; repeat case_match; eauto. }
    eexists _, _. split_and!.
    + unfold step. rewrite Hw. cbn [worker_step at_pc empty_queue_count]. reflexivity.
    + unfold step. cbn [workers shared].
      rewrite list_lookup_insert_eq by assumption.
      cbn [worker_step at_pc empty_queue_count]. rewrite Hp. reflexivity.
    + reflexivity.
    + cbn [workers]. rewrite list_insert_insert_eq.
      pose proof (in_flight_insert (workers s) tid _ (mkWorker p n) Hw) as Hfl.
      apply after_record_not_in_flight in Hp.
      cbn [at_pc in_flight_pc] in Hfl. lia.
Qed.

Lemma fetch_always_recorded_witness :
  let s := Demo.state_after Demo.crawler (Demo.taus 0 5) in
  ∃ s1 s2,
    step PyUrllib.lib Demo.crawler 0 (Http RaisesConnectionError) s = Some s1 ∧
    step PyUrllib.lib Demo.crawler 0 Tau s1 = Some s2 ∧
    fetch_attempts (stats (shared s2)) =
      (fetch_attempts (stats (shared s)) ++ [(Demo.seed, 503)])%list ∧
    in_flight (workers s) = S (in_flight (workers s2)).
Proof.
  intros s.
  assert (reachable PyUrllib.lib Demo.crawler s) as Hreach.
  { apply state_after_reachable. vm_compute. eexists. reflexivity. }
  destruct (fetch_always_recorded PyUrllib.lib Demo.crawler s Hreach)
    as (_ & _ & Hrec & _).
  apply (Hrec 0%nat Demo.seed 0 1 0%nat RaisesConnectionError).
  vm_compute. reflexivity.
Defined.

(** C7. After any sequence of recorder calls the status-code histogram
    sums to the number of fetch records.  The size histogram sums to
    the number of visit records whose size could be divided by 1024;
    when no call of the sequence ended by [OverflowError] (no size
    reaches 2^1034 - 2^980 in absolute value, and no byte count does)
    these are all visit records: the size histogram sums to the number
    of visit records and each of them falls in one range.  Each size
    range counts the visit records whose size lies in it; the five
    ranges are distinct and a size lies in the one given by the
    thresholds 1024, 10240, 102400 and 1048576 bytes, so that 1024
    bytes fall in "1KB ~ <10KB" and 1048576 bytes in ">= 1MB". *)
Theorem histogram_consistency (cs : list call) :
  let s := exec_all cs StatisticsCollector_init in
  let snap := get_statistics s in
  counter_total (st_status_codes snap) = st_fetch_attempts snap ∧
  st_fetch_attempts snap = length (fetch_attempts s) ∧
  (counter_total (st_file_sizes snap) + overflowed_visits s)%nat =
    length (successful_visits s) ∧
  (Forall (λ k, raises k = false) cs →
   counter_total (st_file_sizes snap) = length (successful_visits s) ∧
   Forall (λ v, ∃ k, size_range v.1.1.2 = Some k ∧ k ∈ size_ranges)
          (successful_visits s)) ∧
  (∀ k, counter_get (st_file_sizes snap) k = visits_in_range k s) ∧
  (∀ k, k ∈ dom (st_file_sizes snap) ↔ k ∈ size_ranges) ∧
  NoDup size_ranges ∧
  (∀ size, float_overflow size = false →
     (∃ k, size_range size = Some k ∧ k ∈ size_ranges) ∧
     (size_range size = Some LT_1KB ↔ size < 1024) ∧
     (size_range size = Some KB1_10 ↔ 1024 ≤ size < 10240) ∧
     (size_range size = Some KB10_100 ↔ 10240 ≤ size < 102400) ∧
     (size_range size = Some KB100_1MB ↔ 102400 ≤ size < 1048576) ∧
     (size_range size = Some GE_1MB ↔ 1048576 ≤ size)) ∧
  (∀ size, 0 ≤ size < 2 ^ 63 → float_overflow size = false) ∧
  size_range 1024 = Some "1KB ~ <10KB" ∧
  size_range 1048576 = Some ">= 1MB".
Proof.
  intros s snap. subst snap. cbn [get_statistics st_status_codes st_file_sizes
    st_fetch_attempts].
  destruct (histograms_consistent cs) as (Hst & Hfs & Hget & Hdom).
  assert (∀ size, float_overflow size = false →
            ∃ k, size_range size = Some k ∧ k ∈ size_ranges) as Hsome.
  { intros size Hfl. destruct (size_range size) as [k|] eqn:Hk.
    - exists k. split; [reflexivity | by eapply size_range_in_ranges].
    - apply size_range_None in Hk. congruence. }
  split_and!; try assumption; try reflexivity.
  - intros Hcs. split.
    + fold s in Hfs. subst s. rewrite (overflowed_visits_none cs Hcs) in Hfs. lia.
    + eapply Forall_impl; [exact (visits_in_float_range cs Hcs)|].
      intros v Hv. by apply Hsome.
  - unfold size_ranges, LT_1KB, KB1_10, KB10_100, KB100_1MB, GE_1MB.
    repeat (apply NoDup_cons; split; [set_solver|]). apply NoDup_nil_2.
  - intros size Hfl. split; [by apply Hsome | by apply size_range_bounds].
  - apply float_overflow_bytes.
Qed.

Lemma histogram_consistency_witness :
  let s := exec_all [AddFetchAttempt "https://example.com/" 200;
                     AddSuccessfulVisit "https://example.com/" 1024 0 "text/html"]
             StatisticsCollector_init in
  counter_total (st_file_sizes (get_statistics s)) = length (successful_visits s) ∧
  Forall (λ v, ∃ k, size_range v.1.1.2 = Some k ∧ k ∈ size_ranges) (successful_visits s).
Proof.
  intros s.
  destruct (histogram_consistency
              [AddFetchAttempt "https://example.com/" 200;
               AddSuccessfulVisit "https://example.com/" 1024 0 "text/html"])
    as (_ & _ & _ & Hsum & _).
  apply Hsum. repeat constructor.
Defined.

(** C8, as stated, fails: the seed is fetched with status 200 and its
    visit is recorded; the single worker then finds the queue empty
    five times in a row and leaves its loop, and [stop_crawling] is
    still [False]. *)
Lemma idle_exit_counterexample :
  ¬ (∀ s tid n s',
       reachable PyUrllib.lib Demo.crawler s →
       (0 < st_fetches_succeeded (get_statistics (stats (shared s))))%nat →
       workers s !! tid = Some (mkWorker QueueEmpty n) →
       (max_empty_attempts ≤ n)%nat →
       step PyUrllib.lib Demo.crawler tid Tau s = Some s' →
       stop_crawling (shared s') = true).
Proof.
  intros Hclaim.
  specialize (Hclaim (Demo.state_after Demo.crawler Demo.before_idle_after_visit)
                0%nat 5%nat
                (Demo.state_after Demo.crawler Demo.idle_after_visit)
                (state_after_reachable _ _ before_idle_after_visit_runs)).
  assert (stop_crawling
            (shared (Demo.state_after Demo.crawler Demo.idle_after_visit)) = true)
    as Hflag.
  { apply Hclaim.
    - vm_compute. lia.
    - vm_compute. reflexivity.
    - vm_compute. lia.
    - vm_compute. reflexivity. }
  vm_compute in Hflag. discriminate.
Qed.

(** C8, amended. A worker at the top of its loop leaves when the stop
    flag is up.  A step raises the flag exactly when the worker is in
    one of the two budget tests and [pages_fetched] has reached
    [max_pages]; the flag is never lowered.  A worker that found the
    queue empty leaves its loop when its count of consecutive empty
    polls is at least five and [pages_fetched] is positive, and that
    step leaves the shared state, flag included, as it was. *)
Theorem stop_flag_transitions (lib : Urllib) (c : WebCrawler) (s s' : State)
    (tid : nat) (ev : event) (w : Worker) :
  workers s !! tid = Some w →
  step lib c tid ev s = Some s' →
  (at_pc w = LoopTop → stop_crawling (shared s) = true →
   workers s' !! tid = Some (mkWorker Finished (empty_queue_count w))) ∧
  (stop_crawling (shared s') = true ↔
   stop_crawling (shared s) = true ∨
   (at_budget_test (at_pc w) = true ∧ max_pages c ≤ pages_fetched (shared s))) ∧
  (at_pc w = QueueEmpty →
   shared s' = shared s ∧
   workers s' !! tid = Some (mkWorker
     (if (max_empty_attempts <=? empty_queue_count w)%nat && (0 <? pages_fetched (shared s))
      then Finished else LoopTop) (empty_queue_count w))).
Proof.
  intros Hw Hstep.
  assert (tid < length (workers s))%nat as Hlt by (eapply lookup_lt_Some; eassumption).
  unfold step in Hstep. rewrite Hw in Hstep.
  destruct (worker_step lib c ev w (shared s)) as [[w' sh']|] eqn:Hs; [|discriminate].
  injection Hstep as <-. cbn [workers shared].
  rewrite list_lookup_insert_eq by assumption.
  destruct w as [p n]. cbn [at_pc empty_queue_count].
  split_and!.
  - intros -> Hstop. destruct ev; cbn [worker_step at_pc empty_queue_count] in Hs;
      try discriminate. rewrite Hstop in Hs. congruence.
  - worker_cases Hs;
      cbn [set_stop set_queue set_pages set_stats stop_crawling at_budget_test];
      arith_hyps;
      (split; [intros Hup | intros [Hup|[Hup Hle]]]);
      solve [congruence | tauto | lia | right; split; [reflexivity | lia]].
  - intros ->. destruct ev; cbn [worker_step at_pc empty_queue_count] in Hs;
      try discriminate. case_match; simplify_eq; auto.
Qed.

Lemma stop_flag_transitions_witness :
  let s := Demo.state_after Demo.crawler Demo.before_idle_exit in
  let s' := Demo.state_after Demo.crawler Demo.idle_exit in
  shared s' = shared s ∧ workers s' !! 0%nat = Some (mkWorker Finished 5).
Proof.
  intros s s'.
  assert (workers s !! 0%nat = Some (mkWorker QueueEmpty 5)) as Hw
    by (vm_compute; reflexivity).
  assert (step PyUrllib.lib Demo.crawler 0 Tau s = Some s') as Hstep
    by (vm_compute; reflexivity).
  destruct (stop_flag_transitions PyUrllib.lib Demo.crawler s s' 0 Tau _ Hw Hstep)
    as (_ & _ & Hidle).
  exact (Hidle eq_refl).
Defined.

(** C9. Two snapshots with only non-mutating calls ([is_visited],
    [get_statistics]) between them are identical. *)
Theorem snapshot_idempotent (s : StatisticsCollector) (between : list call) :
  forallb (λ k, negb (is_write k)) between = true →
  (exec GetStatistics (exec_all between (exec GetStatistics s).1)).2 =
  (exec GetStatistics s).2.
Proof.
  intros Hread. cbn [exec fst snd]. rewrite exec_all_read_only by assumption.
  reflexivity.
Qed.

Lemma snapshot_idempotent_witness :
  let s := add_fetch_attempt "https://example.com/" 200 StatisticsCollector_init in
  (exec GetStatistics
     (exec_all [IsVisited "https://example.com/"; GetStatistics]
        (exec GetStatistics s).1)).2 = (exec GetStatistics s).2.
Proof.
  intros s.
  apply (snapshot_idempotent s [IsVisited "https://example.com/"; GetStatistics]).
  reflexivity.
Defined.

(** C10. In every reachable state each discovery record carries the
    indicator given by [is_within_site]; the sets of unique within-site
    and outside-site URLs are disjoint, their union is the set of
    unique extracted URLs, the snapshot's unique count is the sum of
    the two, and the total count is at least the unique count. *)
Theorem discovery_partition (lib : Urllib) (c : WebCrawler) (s : State) :
  reachable lib c s →
  let st := stats (shared s) in
  let snap := get_statistics st in
  (∀ u ind, (u, ind) ∈ discovered_urls st →
     ∃ flag, is_within_site lib c u = Some flag ∧
             ind = if flag then "OK" else "N_OK") ∧
  unique_urls_within_site st ## unique_urls_outside_site st ∧
  unique_urls_extracted st = unique_urls_within_site st ∪ unique_urls_outside_site st ∧
  st_unique_urls_extracted snap =
    (st_unique_urls_within_site snap + st_unique_urls_outside_site snap)%nat ∧
  (st_unique_urls_extracted snap ≤ st_total_urls_extracted snap)%nat.
Proof.
  intros Hreach st snap. subst st snap.
  destruct (stats_trace lib c s Hreach) as (cs & Hcs & ->).
  destruct (discovery_sets lib c cs Hcs) as (Hin & Hout & Hun & Hsz & Hind).
  assert (unique_urls_within_site (exec_all cs StatisticsCollector_init) ##
          unique_urls_outside_site (exec_all cs StatisticsCollector_init)) as Hdisj.
  { intros u Hu1 Hu2. apply Hin in Hu1. apply Hout in Hu2. congruence. }
  cbn [get_statistics st_unique_urls_extracted st_unique_urls_within_site
       st_unique_urls_outside_site st_total_urls_extracted].
  split_and!; try assumption.
  rewrite Hun. apply size_union. exact Hdisj.
Qed.

Lemma discovery_partition_witness :
  let st := stats (shared (Demo.state_after Demo.crawler Demo.visit_seed)) in
  let snap := get_statistics st in
  (∀ u ind, (u, ind) ∈ discovered_urls st →
     ∃ flag, is_within_site PyUrllib.lib Demo.crawler u = Some flag ∧
             ind = if flag then "OK" else "N_OK") ∧
  unique_urls_within_site st ## unique_urls_outside_site st ∧
  unique_urls_extracted st = unique_urls_within_site st ∪ unique_urls_outside_site st ∧
  st_unique_urls_extracted snap =
    (st_unique_urls_within_site snap + st_unique_urls_outside_site snap)%nat ∧
  (st_unique_urls_extracted snap ≤ st_total_urls_extracted snap)%nat.
Proof.
  apply (discovery_partition PyUrllib.lib Demo.crawler
           (Demo.state_after Demo.crawler Demo.visit_seed)).
  apply state_after_reachable. vm_compute. eexists. reflexivity.
Defined.

(** * Further properties of the collector *)

Section CounterFilter.
Context `{Countable K}.
Implicit Types c : gmap K nat.

Lemma counter_get_filter (P : K * nat → Prop) `{!∀ x, Decision (P x)} c k :
  (∀ n m, P (k, n) ↔ P (k, m)) →
  counter_get (filter P c) k = if decide (P (k, 0%nat)) then counter_get c k else 0%nat.
Proof.
  intros Hkey. unfold counter_get.
  destruct (c !! k) as [n|] eqn:Hk.
  - destruct (decide (P (k, 0%nat))) as [Hp|Hp].
    + rewrite (map_lookup_filter_Some_2 P c k n); [reflexivity | assumption |].
      by apply (Hkey n 0%nat).
    + rewrite (proj2 (map_lookup_filter_None P c k)); [reflexivity|].
      right. intros x Hx Hpx. apply Hp. by apply (Hkey x 0%nat).
  - rewrite (proj2 (map_lookup_filter_None P c k)); [|by left].
    by destruct (decide _).
Qed.

Lemma counter_incr_filter (P : K * nat → Prop) `{!∀ x, Decision (P x)} c k :
  (∀ n m, P (k, n) ↔ P (k, m)) →
  filter P (counter_incr k c) =
  if decide (P (k, 0%nat)) then counter_incr k (filter P c) else filter P c.
Proof.
  intros Hkey. unfold counter_incr at 1.
  destruct (decide (P (k, 0%nat))) as [Hp|Hp].
  - rewrite map_filter_insert_True by (by apply (Hkey _ 0%nat)).
    unfold counter_incr. rewrite counter_get_filter by assumption.
    rewrite decide_True by assumption. reflexivity.
  - rewrite map_filter_insert_False by (intros Hq; apply Hp; by apply (Hkey _ 0%nat) in Hq).
    rewrite map_filter_delete. apply delete_id.
    apply map_lookup_filter_None. right. intros x _ Hq.
    apply Hp. by apply (Hkey x 0%nat).
Qed.

Lemma counter_get_zero_iff c k :
  (∀ j n, c !! j = Some n → n ≠ 0%nat) →
  (c !! k = None ↔ counter_get c k = 0%nat).
Proof.
  intros Hpos. unfold counter_get. destruct (c !! k) as [n|] eqn:Hk; simpl.
  - split; [discriminate|]. intros ->. by destruct (Hpos k 0%nat Hk).
  - done.
Qed.
End CounterFilter.

Lemma attempts_with_code_snoc code s url code' :
  attempts_with_code code (add_fetch_attempt url code' s) =
  ((if decide (code' = code) then 1 else 0) + attempts_with_code code s)%nat.
Proof.
  unfold attempts_with_code. simpl. rewrite List.filter_app, length_app. simpl.
  destruct (decide (code' = code)) as [->|Hne].
  - rewrite Z.eqb_refl. simpl. lia.
  - apply Z.eqb_neq in Hne. rewrite Hne. simpl. lia.
Qed.

Lemma visits_with_type_snoc k s url size n ct :
  visits_with_type k (add_successful_visit url size n ct s) =
  ((if decide (clean_content_type ct = k) then 1 else 0) + visits_with_type k s)%nat.
Proof.
  unfold visits_with_type. simpl. rewrite List.filter_app, length_app. simpl.
  destruct (decide (clean_content_type ct = k)) as [->|Hne].
  - rewrite String.eqb_refl. simpl. lia.
  - apply String.eqb_neq in Hne. rewrite Hne. simpl. lia.
Qed.

Lemma succeeded_le_attempts (s : StatisticsCollector) :
  (st_fetches_succeeded (get_statistics s) ≤ length (fetch_attempts s))%nat.
Proof. cbn. apply length_filter. Qed.

Lemma status_codes_counts (cs : list call) :
  let s := exec_all cs StatisticsCollector_init in
  (∀ k, counter_get (status_codes s) k = attempts_with_code k s) ∧
  (∀ j n, status_codes s !! j = Some n → n ≠ 0%nat).
Proof.
  induction cs as [|k cs IH] using rev_ind.
  - split; [reflexivity|]. intros j n Hj. cbn in Hj. by rewrite lookup_empty in Hj.
  - cbv zeta in *. rewrite exec_all_snoc. destruct IH as [Hget Hpos].
    destruct k as [u c|u sz n ct|u b|u|]; simpl; try (split; assumption).
    split.
    + intros k. rewrite counter_get_incr, attempts_with_code_snoc.
      destruct (decide (c = k)) as [->|]; rewrite Hget; reflexivity.
    + intros j n. unfold counter_incr. rewrite lookup_insert.
      destruct (decide (c = j)); [intros [= <-]; lia | apply Hpos].
Qed.

(** X1. After any sequence of calls, the count stored in [status_codes]
    under a status code is the number of fetch records with that code,
    and a code has no entry in the histogram exactly when no fetch
    record carries it. *)
Theorem status_histogram_per_code (cs : list call) (code : Z) :
  let s := exec_all cs StatisticsCollector_init in
  counter_get (st_status_codes (get_statistics s)) code = attempts_with_code code s ∧
  (st_status_codes (get_statistics s) !! code = None ↔ attempts_with_code code s = 0%nat).
Proof.
  cbn zeta. cbn [get_statistics st_status_codes].
  destruct (status_codes_counts cs) as [Hget Hpos]. split; [apply Hget|].
  rewrite <- Hget. by apply counter_get_zero_iff.
Qed.

(** X2. After any sequence of calls, the counts of [content_types] sum
    to the number of visit records, and the count under a content type
    is the number of visit records stored with it. *)
Theorem content_type_histogram (cs : list call) :
  let s := exec_all cs StatisticsCollector_init in
  counter_total (st_content_types (get_statistics s)) = length (successful_visits s) ∧
  ∀ ct, counter_get (st_content_types (get_statistics s)) ct = visits_with_type ct s.
Proof.
  cbn zeta. cbn [get_statistics st_content_types].
  induction cs as [|k cs IH] using rev_ind.
  - split; [apply counter_total_empty | reflexivity].
  - rewrite exec_all_snoc. destruct IH as [Htot Hget].
    destruct k as [u c|u sz n ct|u b|u|]; simpl; try (split; assumption).
    split.
    + rewrite counter_total_incr, length_app, Htot. simpl. lia.
    + intros k. rewrite counter_get_incr, visits_with_type_snoc.
      destruct (decide (clean_content_type ct = k)) as [->|]; rewrite Hget; reflexivity.
Qed.

(** X3. After any sequence of calls, [unique_urls_extracted] is the set
    of URLs of the discovery records, and the within-site and
    outside-site sets are the URLs of the records written with the
    indicator "OK" and "N_OK". *)
Theorem unique_sets_are_discoveries (cs : list call) :
  let s := exec_all cs StatisticsCollector_init in
  unique_urls_extracted s = list_to_set (discovered_urls s).*1 ∧
  unique_urls_within_site s = list_to_set (discovered_with "OK" s) ∧
  unique_urls_outside_site s = list_to_set (discovered_with "N_OK" s).
Proof.
  cbn zeta. induction cs as [|k cs IH] using rev_ind.
  - split_and!; reflexivity.
  - rewrite exec_all_snoc. destruct IH as (He & Hw & Ho).
    destruct k as [u c|u sz n ct|u b|u|]; simpl; try (split_and!; assumption).
    unfold discovered_with in *. simpl.
    rewrite fmap_app, !List.filter_app, !fmap_app, !list_to_set_app_L.
    rewrite He. destruct b; simpl; rewrite ?Hw, ?Ho; split_and!; set_solver.
Qed.

(** X4. In every snapshot taken after any sequence of calls, succeeded
    and failed fetches add up to the fetch attempts, and the succeeded
    fetches are the histogram counts of the codes from 200 to 299. *)
Theorem snapshot_fetch_totals (cs : list call) :
  let snap := get_statistics (exec_all cs StatisticsCollector_init) in
  (st_fetches_succeeded snap + st_fetches_failed snap)%nat = st_fetch_attempts snap ∧
  st_fetches_succeeded snap = counter_total (success_codes (st_status_codes snap)).
Proof.
  cbn zeta. split.
  - pose proof (succeeded_le_attempts (exec_all cs StatisticsCollector_init)).
    cbn in *. lia.
  - cbn [get_statistics st_fetches_succeeded st_status_codes].
    induction cs as [|k cs IH] using rev_ind.
    + cbn. unfold success_codes. rewrite map_filter_empty. reflexivity.
    + rewrite exec_all_snoc.
      destruct k as [u c|u sz n ct|u b|u|]; simpl; try assumption.
      rewrite filter_app, length_app, IH. unfold success_codes.
      rewrite counter_incr_filter by done. simpl.
      destruct (decide (is_success c = true)) as [Hc|Hc].
      * rewrite counter_total_incr.
        rewrite (filter_cons_True _ (u, c)) by exact Hc. simpl. lia.
      * rewrite (filter_cons_False _ (u, c)) by exact Hc. simpl. lia.
Qed.

(** X5. A call changes the answer of [is_visited(url)] only when it is
    [add_successful_visit] for that same URL, which makes it true; so
    once a visit of a URL is recorded, [is_visited] stays true for it
    whatever calls follow. *)
Theorem visited_is_monotone (url : string) (s : StatisticsCollector) :
  (∀ k, is_visited url (exec k s).1 =
        is_visited url s ||
        match k with
        | AddSuccessfulVisit v _ _ _ => String.eqb url v
        | _ => false
        end) ∧
  (∀ size n ct cs,
     is_visited url (exec_all cs (add_successful_visit url size n ct s)) = true).
Proof.
  assert (∀ k s, is_visited url (exec k s).1 =
        is_visited url s ||
        match k with
        | AddSuccessfulVisit v _ _ _ => String.eqb url v
        | _ => false
        end) as Hone.
  { clear. intros k s. destruct k as [u c|u sz n ct|u b|u|]; simpl;
      rewrite ?orb_false_r; try reflexivity.
    unfold is_visited. simpl.
    destruct (String.eqb_spec url u) as [->|Hne].
    - rewrite orb_true_r. apply bool_decide_eq_true. set_solver.
    - rewrite orb_false_r. apply bool_decide_ext. set_solver. }
  split; [intros k; apply Hone|].
  intros size n ct cs. induction cs as [|k cs IH] using rev_ind.
  - cbn. apply bool_decide_eq_true. set_solver.
  - rewrite exec_all_snoc, Hone, IH. reflexivity.
Qed.

(** * Further properties of the string tests *)

Lemma split_head_absent (sep : ascii) (s : string) :
  sep ∉ list_ascii_of_string (PyStr.split_head sep s).
Proof.
  induction s as [|a s IH]; simpl; [set_solver|].
  destruct (Ascii.eqb_spec a sep) as [->|Hne]; simpl; [set_solver|].
  rewrite elem_of_cons. intros [->|Hin]; [congruence | contradiction].
Qed.

Lemma split_head_fixed (sep : ascii) (s : string) :
  sep ∉ list_ascii_of_string s → PyStr.split_head sep s = s.
Proof.
  induction s as [|a s IH]; simpl; [reflexivity|].
  rewrite elem_of_cons. intros Hnot.
  destruct (Ascii.eqb_spec a sep) as [->|Hne]; [tauto|].
  rewrite IH; [reflexivity | tauto].
Qed.

Lemma lstrip_chars (c : ascii) (s : string) :
  c ∈ list_ascii_of_string (PyStr.lstrip s) → c ∈ list_ascii_of_string s.
Proof.
  induction s as [|a s IH]; simpl; [done|].
  destruct (PyStr.is_space a); simpl; [|done].
  intros Hin. apply elem_of_cons. right. by apply IH.
Qed.

Lemma rstrip_chars (c : ascii) (s : string) :
  c ∈ list_ascii_of_string (PyStr.rstrip s) → c ∈ list_ascii_of_string s.
Proof.
  induction s as [|a s IH]; simpl; [done|].
  destruct (PyStr.rstrip s) as [|b r] eqn:Hr.
  - destruct (PyStr.is_space a); simpl; [set_solver|].
    rewrite !elem_of_cons. intros [->|Hin]; [by left | set_solver].
  - simpl. rewrite !elem_of_cons. intros [->|Hin]; [by left|].
    right. apply IH. simpl. by apply elem_of_cons.
Qed.

Lemma lstrip_head (s : string) (c : ascii) (r : string) :
  PyStr.lstrip s = String c r → PyStr.is_space c = false.
Proof.
  induction s as [|a s IH]; simpl; [discriminate|].
  destruct (PyStr.is_space a) eqn:Ha; [exact IH|].
  intros [= <- _]. exact Ha.
Qed.

Lemma lstrip_fixed (s : string) :
  (∀ c r, s = String c r → PyStr.is_space c = false) → PyStr.lstrip s = s.
Proof.
  destruct s as [|a s]; simpl; [reflexivity|].
  intros Hhead. rewrite (Hhead a s eq_refl). reflexivity.
Qed.

Lemma rstrip_keeps_head (c : ascii) (s : string) :
  PyStr.is_space c = false → ∃ r, PyStr.rstrip (String c s) = String c r.
Proof.
  intros Hc. simpl. destruct (PyStr.rstrip s); [rewrite Hc|]; eauto.
Qed.

Lemma rstrip_idempotent (s : string) :
  PyStr.rstrip (PyStr.rstrip s) = PyStr.rstrip s.
Proof.
  induction s as [|a s IH]; simpl; [reflexivity|].
  destruct (PyStr.rstrip s) as [|b r] eqn:Hr.
  - destruct (PyStr.is_space a) eqn:Ha; simpl; [reflexivity|]. rewrite Ha. reflexivity.
  - change (PyStr.rstrip (String a (String b r)))
      with (match PyStr.rstrip (String b r) with
            | EmptyString =>
                if PyStr.is_space a then EmptyString else String a EmptyString
            | r' => String a r'
            end).
    rewrite IH. reflexivity.
Qed.

Lemma rstrip_last (s p : string) (c : ascii) :
  PyStr.rstrip s = p +:+ String c EmptyString → PyStr.is_space c = false.
Proof.
  revert p. induction s as [|a s IH]; intros p; simpl.
  - destruct p; [rewrite append_nil_l | rewrite append_cons]; discriminate.
  - destruct (PyStr.rstrip s) as [|b r] eqn:Hr.
    + destruct (PyStr.is_space a) eqn:Ha.
      * destruct p; [rewrite append_nil_l | rewrite append_cons]; discriminate.
      * destruct p as [|x p]; [rewrite append_nil_l | rewrite append_cons].
        { intros [= ->]. exact Ha. }
        intros [= _ Hp].
        destruct p; [rewrite append_nil_l in Hp | rewrite append_cons in Hp];
          discriminate.
    + destruct p as [|x p]; [rewrite append_nil_l | rewrite append_cons].
      * discriminate.
      * intros [= _ Hp]. by apply (IH p).
Qed.

Lemma strip_idempotent (s : string) : PyStr.strip (PyStr.strip s) = PyStr.strip s.
Proof.
  unfold PyStr.strip.
  rewrite (lstrip_fixed (PyStr.rstrip (PyStr.lstrip s))).
  - apply rstrip_idempotent.
  - intros c r Hr. destruct (PyStr.lstrip s) as [|a t] eqn:Hl; [discriminate|].
    pose proof (lstrip_head s a t Hl) as Ha.
    destruct (rstrip_keeps_head a t Ha) as [r' Hr'].
    rewrite Hr' in Hr. injection Hr as <- _. exact Ha.
Qed.

Lemma clean_content_type_absent (content_type : string) :
  ";"%char ∉ list_ascii_of_string (clean_content_type content_type).
Proof.
  unfold clean_content_type. intros Hin.
  apply rstrip_chars, lstrip_chars in Hin.
  by apply (split_head_absent ";" content_type).
Qed.

Lemma clean_content_type_idempotent (content_type : string) :
  clean_content_type (clean_content_type content_type) = clean_content_type content_type.
Proof.
  pose proof (clean_content_type_absent content_type) as Hno.
  unfold clean_content_type in *.
  rewrite (split_head_fixed _ _ Hno). apply strip_idempotent.
Qed.

(** X6. [content_type.split(';')[0].strip()] returns a string without
    [;] that neither starts nor ends with white space, and applying it
    again changes nothing: the content type cleaned by [fetch_page] is
    stored unchanged by [add_successful_visit]. *)
Theorem clean_content_type_normal (content_type : string) :
  let ct := clean_content_type content_type in
  clean_content_type ct = ct ∧
  (";"%char ∉ list_ascii_of_string ct) ∧
  (∀ c r, ct = String c r → PyStr.is_space c = false) ∧
  (∀ p c, ct = p +:+ String c EmptyString → PyStr.is_space c = false).
Proof.
  cbn zeta. split_and!.
  - apply clean_content_type_idempotent.
  - apply clean_content_type_absent.
  - unfold clean_content_type. set (t := PyStr.split_head ";" content_type).
    intros c r Hr. unfold PyStr.strip in Hr.
    destruct (PyStr.lstrip t) as [|a u] eqn:Hl; [discriminate|].
    pose proof (lstrip_head t a u Hl) as Ha.
    destruct (rstrip_keeps_head a u Ha) as [r' Hr'].
    rewrite Hr' in Hr. injection Hr as <- _. exact Ha.
  - unfold clean_content_type. intros p c Hp.
    by apply (rstrip_last (PyStr.lstrip (PyStr.split_head ";" content_type)) p c).
Qed.

Lemma lower_app (a b : string) :
  PyStr.lower (a +:+ b) = PyStr.lower a +:+ PyStr.lower b.
Proof.
  induction a as [|x a IH]; [reflexivity|].
  rewrite append_cons. simpl. rewrite IH. reflexivity.
Qed.

Lemma prefix_app (a q : string) : String.prefix a (a +:+ q) = true.
Proof.
  induction a as [|x a IH]; [by destruct q|].
  rewrite append_cons. simpl. destruct (ascii_dec x x); [exact IH | congruence].
Qed.

Lemma contains_of_prefix (t a : string) :
  String.prefix a t = true → PyStr.contains t a = true.
Proof. intros Ha. destruct t; cbn [PyStr.contains]; rewrite Ha; reflexivity. Qed.

Lemma contains_app_mid (p a q : string) : PyStr.contains (p +:+ a +:+ q) a = true.
Proof.
  induction p as [|x p IH].
  - rewrite append_nil_l. apply contains_of_prefix, prefix_app.
  - rewrite append_cons. cbn [PyStr.contains]. rewrite IH.
    by destruct (String.prefix a _).
Qed.

Lemma contains_char_app (a b : string) (c : ascii) :
  PyStr.contains (a +:+ b) (String c EmptyString) =
  PyStr.contains a (String c EmptyString) || PyStr.contains b (String c EmptyString).
Proof.
  induction a as [|x a IH]; [reflexivity|].
  rewrite append_cons. cbn [PyStr.contains String.prefix].
  destruct (ascii_dec c x); [by destruct (a +:+ b), a | exact IH].
Qed.

Lemma contains_self (s : string) : PyStr.contains s s = true.
Proof.
  apply contains_of_prefix. induction s as [|x s IH]; [reflexivity|].
  cbn [String.prefix]. destruct (ascii_dec x x); [exact IH | congruence].
Qed.

Lemma endswith_contains (s suf : string) (c : ascii) :
  suf = String c EmptyString →
  PyStr.endswith s suf = true → PyStr.contains s suf = true.
Proof.
  intros -> [p ->]%endswith_spec.
  rewrite contains_char_app, contains_self. apply orb_true_r.
Qed.

Lemma contains_newline_lower (s : string) :
  PyStr.contains (PyStr.lower s) newline = false → PyStr.contains s newline = false.
Proof.
  unfold newline. induction s as [|x s IH]; [done|].
  cbn [PyStr.lower PyStr.contains String.prefix].
  destruct (ascii_dec (ascii_of_nat 10) (PyStr.lower_char x)) as [He|Hne].
  - by destruct (PyStr.lower s).
  - intros Hs. destruct (ascii_dec (ascii_of_nat 10) x) as [<-|_]; [|by apply IH].
    exfalso. apply Hne. reflexivity.
Qed.

Lemma extensions_without_newline :
  Forall (λ e, PyStr.contains e newline = false) excluded_extension_list.
Proof. apply Forall_forall. intros e He. repeat (apply elem_of_cons in He as [->|He]; [reflexivity|]). by apply elem_of_nil in He. Qed.

(** X7. A URL whose fragment-stripped form is a newline-free text
    followed by a dot and one of the excluded extensions, in any mix
    of upper and lower case, matches [excluded_extensions] and is
    rejected by [is_valid_url], whatever was visited and whatever
    robots.txt says. *)
Theorem excluded_extension_rejected (lib : Urllib) (c : WebCrawler)
    (st : StatisticsCollector) (url p x ext : string) :
  ext ∈ excluded_extension_list →
  PyStr.lower x = ext →
  PyStr.contains p newline = false →
  urldefrag lib url = Some (p +:+ "." +:+ x) →
  excluded_extensions_match (p +:+ "." +:+ x) = true ∧
  is_valid_url lib c url st = Some false.
Proof.
  intros Hext Hx Hp Hurl.
  assert (PyStr.contains x newline = false) as Hxn.
  { apply contains_newline_lower. rewrite Hx.
    by apply (proj1 (Forall_forall _ _) extensions_without_newline). }
  assert (PyStr.contains (p +:+ "." +:+ x) newline = false) as Hnl.
  { unfold newline in *. rewrite !contains_char_app, Hp, Hxn. reflexivity. }
  assert (excluded_extensions_match (p +:+ "." +:+ x) = true) as Hmatch.
  { unfold excluded_extensions_match.
    destruct (PyStr.endswith (p +:+ "." +:+ x) newline) eqn:Hend.
    { apply (endswith_contains _ _ (ascii_of_nat 10) eq_refl) in Hend.
      unfold newline in Hnl. congruence. }
    rewrite Hnl. cbn [negb andb]. apply existsb_exists. exists ext. split.
    - by apply list_elem_of_In.
    - apply endswith_spec. exists (PyStr.lower p).
      rewrite !lower_app, Hx. reflexivity. }
  split; [exact Hmatch|].
  unfold is_valid_url. rewrite Hurl. cbn [mbind option_bind].
  rewrite Hmatch. by destruct (is_visited _ _).
Qed.

Lemma excluded_extension_rejected_witness :
  excluded_extensions_match ("https://example.com/files/Archive" +:+ "." +:+ "ZIP")
    = true ∧
  is_valid_url PyUrllib.lib Demo.crawler "https://example.com/files/Archive.ZIP#top"
    StatisticsCollector_init = Some false.
Proof.
  apply (excluded_extension_rejected PyUrllib.lib Demo.crawler StatisticsCollector_init
           "https://example.com/files/Archive.ZIP#top"
           "https://example.com/files/Archive" "ZIP" "zip").
  - vm_compute. repeat (first [apply list_elem_of_here | apply list_elem_of_further]).
  - reflexivity.
  - reflexivity.
  - reflexivity.
Defined.

(** X8. [should_process_content_type] accepts every content type that
    contains one of the allowed types, written in any mix of upper and
    lower case, with any text before and after it. *)
Theorem allowed_type_accepted (p x q allowed : string) :
  allowed ∈ allowed_content_types →
  PyStr.lower x = allowed →
  should_process_content_type (p +:+ x +:+ q) = true.
Proof.
  intros Hin Hx. unfold should_process_content_type.
  apply existsb_exists. exists allowed. split; [by apply list_elem_of_In|].
  rewrite !lower_app, Hx. apply contains_app_mid.
Qed.

Lemma allowed_type_accepted_witness :
  should_process_content_type ("" +:+ "Text/HTML" +:+ "; charset=UTF-8") = true.
Proof.
  apply (allowed_type_accepted "" "Text/HTML" "; charset=UTF-8" "text/html").
  - vm_compute. apply list_elem_of_here.
  - reflexivity.
Defined.

(** * Further properties of the crawl *)

Lemma sum_list_with_insert {A} (f : A → nat) (l : list A) (i : nat) (x y : A) :
  l !! i = Some x →
  (sum_list_with f (<[i := y]> l) + f x = sum_list_with f l + f y)%nat.
Proof.
  revert i. induction l as [|a l IH]; intros [|i] Hi; simpl in *; try discriminate.
  - injection Hi as ->. lia.
  - specialize (IH i Hi). lia.
Qed.

Lemma extract_links_http (lib : Urllib) (anchors : list string) :
  Forall (λ u, http_link u = true) (extract_links lib anchors).
Proof.
  induction anchors as [|a anchors IH]; cbn [extract_links]; [constructor|].
  destruct (urldefrag lib a) as [u|]; [|constructor].
  destruct (PyStr.startswith u "http") eqn:Hu; [|exact IH].
  by constructor.
Qed.

Lemma after_record_accepted (url : string) (depth : Z) (o : get_outcome) (p : pc) :
  after_record url depth (fetch_page o) = Some p →
  p = LoopTop ∨
  (accepted (fetch_page o) ∧
   ((p = ExtractLinks url depth (fetch_page o) ∧ is_html (fetch_page o) = true) ∨
    (p = RecordVisit url depth (fetch_page o) [] ∧ is_html (fetch_page o) = false))).
Proof.
  unfold after_record.
  destruct o as [code content header| | |]; cbn [fetch_page f_status_code f_content
    f_content_type];
    try (destruct (is_success _); intros [= <-]; by left).
  destruct (is_success code) eqn:Hcode; [|intros [= <-]; by left].
  destruct content as [|a content]; [intros [= <-]; by left|].
  destruct (should_process_content_type _) eqn:Hproc; [|intros [= <-]; by left].
  assert (accepted (fetch_page (Responds code (String a content) header))) as Hacc.
  { split; [exact Hcode|]. eexists _, _. cbn.
    split_and!; try reflexivity; [discriminate | apply clean_content_type_idempotent
                                 | exact Hproc]. }
  destruct (PyStr.contains _ "text/html") eqn:Hhtml; intros [= <-]; right;
    (split; [exact Hacc|]); [left | right]; (split; [reflexivity|]); cbn; exact Hhtml.
Qed.

Section RunFacts.
Variables (lib : Urllib) (c : WebCrawler).

Lemma is_valid_url_admissible url st :
  is_valid_url lib c url st = Some true → admissible lib c url = true.
Proof.
  unfold is_valid_url, admissible.
  destruct (urldefrag lib url) as [u|]; [|discriminate]. cbn [mbind option_bind].
  destruct (is_visited _ st); [discriminate|].
  destruct (excluded_extensions_match _); [discriminate|].
  destruct (can_fetch _ _ _) as [[|]|]; [reflexivity | discriminate..].
Qed.

Lemma worker_step_pc_facts ev w sh w' sh' :
  pc_inv lib c (at_pc w) → pc_facts lib c (at_pc w) →
  worker_step lib c ev w sh = Some (w', sh') →
  pc_facts lib c (at_pc w').
Proof.
  destruct w as [p n]. intros Hi Hp Hs. cbn [at_pc] in Hi, Hp.
  worker_cases Hs; cbn [pc_facts pc_inv at_pc] in *; try tauto.
  - (* ValidCheck *) by eapply is_valid_url_admissible.
  - (* RecordFetch *)
    destruct Hi as (_ & _ & o & ->).
    match goal with
    | Ha : after_record _ _ _ = Some _ |- _ =>
        apply after_record_accepted in Ha
          as [->|[Hacc [[-> Hh]|[-> Hh]]]]
    end; cbn [pc_facts]; [exact I | tauto |].
    split_and!; [assumption | assumption | reflexivity].
  - (* ExtractLinks *)
    destruct Hp as (? & ? & ?). split_and!; try assumption; apply extract_links_http.
  - (* Discover, no link left *)
    destruct Hp as (? & ? & Hh & _). split_and!; try assumption. congruence.
  - (* Discover, within site *)
    destruct Hp as (? & ? & ? & [? ?]%Forall_cons). tauto.
  - (* Discover, outside *)
    destruct Hp as (? & ? & ? & [? ?]%Forall_cons). tauto.
Qed.

Lemma reachable_pc_facts s tid w :
  reachable lib c s → workers s !! tid = Some w → pc_facts lib c (at_pc w).
Proof.
  intros Hreach. revert tid w.
  induction Hreach as [|s tid0 ev s' Hreach IH Hstep]; intros tid w Hw.
  - cbn in Hw. apply lookup_replicate in Hw as [-> _]. exact I.
  - pose proof (reachable_pc_inv lib c s) as Hinv.
    unfold step in Hstep.
    destruct (workers s !! tid0) as [w0|] eqn:Hw0; [|discriminate].
    destruct (worker_step lib c ev w0 (shared s)) as [[w1 sh1]|] eqn:Hs; [|discriminate].
    injection Hstep as <-. cbn [workers] in Hw.
    apply list_lookup_insert_Some in Hw as [(-> & -> & _)|[_ Hw]].
    + eapply worker_step_pc_facts; [| |eassumption]; eauto.
    + eauto.
Qed.
End RunFacts.

Lemma after_record_entry url depth r p u d :
  after_record url depth r = Some p → entry_of p = Some (u, d) →
  u = url ∧ d = depth.
Proof.
  unfold after_record. intros Hp He.
  repeat case_match; simplify_eq; cbn [entry_of] in He; simplify_eq; done.
Qed.

(** The facts about the worker that moves in a step. *)
Ltac moving_worker lib c s tid Hreach :=
  match goal with
  | Hw : workers s !! tid = Some ?w |- _ =>
      let Hi := fresh "Hi" in
      let Hf := fresh "Hf" in
      pose proof (reachable_pc_inv lib c s tid w Hreach Hw) as Hi;
      pose proof (reachable_pc_facts lib c s tid w Hreach Hw) as Hf;
      cbn [at_pc pc_inv pc_facts] in Hi, Hf
  end.

Section StateFacts.
Variables (lib : Urllib) (c : WebCrawler).

Lemma frontier_inv_step s tid ev s' :
  reachable lib c s → frontier_inv lib c s →
  step lib c tid ev s = Some s' → frontier_inv lib c s'.
Proof.
  intros Hreach [Hq Hws] Hstep.
  step_cases Hstep; moving_worker lib c s tid Hreach;
    match goal with
    | Hw : workers s !! tid = Some ?w |- _ =>
        pose proof (Forall_lookup_1 _ _ _ _ Hws Hw) as Hd; cbn [at_pc entry_of] in Hd
    end;
    unfold frontier_inv;
    cbn [shared workers url_queue set_stop set_queue set_pages set_stats];
    (split; [| apply Forall_insert; [assumption|]; cbn [at_pc entry_of];
               intros u d He; simplify_eq;
               first [ by eapply Hd
                     | match goal with
                       | Ha : after_record _ _ _ = Some _ |- _ =>
                           destruct (after_record_entry _ _ _ _ _ _ Ha He) as [-> ->];
                           by eapply Hd
                       end
                     | idtac ]]);
    try assumption;
    try match goal with
    | Hq' : Forall _ (_ :: _) |- _ => apply Forall_cons in Hq' as [Hhead Htail]
    end;
    try match goal with
    | Hempty : url_queue (shared s) = [] |- _ => rewrite Hempty
    end;
    try assumption.
  - (* QueueGet: the depth of the entry taken *)
    destruct Hhead as [[= -> ->]|(_ & _ & Hz)]; [lia | cbn in Hz; lia].
  - (* QueuePut *)
    apply Forall_app. split; [assumption|]. apply Forall_singleton. right.
    cbn [fst snd]. destruct Hi as (Hmax & _ & _ & Hsite).
    destruct Hf as (_ & _ & _ & Hhttp & _).
    assert (0 ≤ depth) by (by eapply Hd). split_and!; [assumption | assumption | lia | lia].
Qed.

Lemma reachable_frontier_inv s : reachable lib c s → frontier_inv lib c s.
Proof.
  induction 1 as [|s tid ev s' Hreach IH Hstep].
  - split; cbn.
    + apply Forall_singleton. by left.
    + apply Forall_replicate. cbn. discriminate.
  - eapply frontier_inv_step; eassumption.
Qed.
Lemma accepted_visit url (r : fetch_result) ct (outlinks : list string) :
  is_within_site lib c url = Some true → admissible lib c url = true →
  accepted r → f_content_type r = Some ct →
  (is_html r = false → outlinks = []) →
  visit_ok lib c (url, f_size r, length outlinks, clean_content_type ct).
Proof.
  intros Hsite Hadm (_ & content & ct' & Hc & Hne & Hct & Hclean & Hproc & Hsize) Hr Hout.
  rewrite Hct in Hr. injection Hr as <-. unfold is_html in Hout. rewrite Hct in Hout.
  cbn [visit_ok]. rewrite Hclean. split_and!; try assumption.
  - rewrite Hsize. destruct content; [done | cbn; lia].
  - intros Hh. by rewrite (Hout Hh).
Qed.

Lemma records_inv_step s tid ev s' :
  reachable lib c s → records_inv lib c (stats (shared s)) →
  step lib c tid ev s = Some s' → records_inv lib c (stats (shared s')).
Proof.
  intros Hreach (Hfa & Hv & Hd) Hstep.
  step_cases Hstep; moving_worker lib c s tid Hreach;
    unfold records_inv;
    cbn [shared stats set_stop set_queue set_pages set_stats fetch_attempts
         successful_visits discovered_urls add_fetch_attempt add_discovered_url
         add_successful_visit];
    (split_and!; try assumption);
    (apply Forall_app; split; [assumption|]); apply Forall_singleton; cbn [fst snd].
  - (* add_fetch_attempt *) tauto.
  - (* add_discovered_url, within *)
    destruct Hf as (_ & _ & _ & [? _]%Forall_cons). assumption.
  - (* add_discovered_url, outside *)
    destruct Hf as (_ & _ & _ & [? _]%Forall_cons). assumption.
  - (* add_successful_visit, the division raising *)
    destruct Hi as (_ & Hsite & _). destruct Hf as (Hadm & Hacc & Hout).
    by apply accepted_visit.
  - (* add_successful_visit *)
    destruct Hi as (_ & Hsite & _). destruct Hf as (Hadm & Hacc & Hout).
    by apply accepted_visit.
Qed.

Lemma reachable_records_inv s :
  reachable lib c s → records_inv lib c (stats (shared s)).
Proof.
  induction 1 as [|s tid ev s' Hreach IH Hstep].
  - split_and!; cbn; constructor.
  - eapply records_inv_step; eassumption.
Qed.
Lemma recorded_mono (st st' : StatisticsCollector) (p : pc) :
  (∀ a, a ∈ fetch_attempts st → a ∈ fetch_attempts st') →
  recorded st p → recorded st' p.
Proof. intros Hsub. destruct p; cbn [recorded]; try done; intros [? ?]; auto. Qed.

Lemma succeeded_snoc (st : StatisticsCollector) (url : string) (code : Z) :
  st_fetches_succeeded (get_statistics (add_fetch_attempt url code st)) =
  (st_fetches_succeeded (get_statistics st) + (if is_success code then 1 else 0))%nat.
Proof.
  cbn. rewrite filter_app, length_app. f_equal.
  destruct (is_success code) eqn:Hc.
  - rewrite filter_cons_True by exact Hc. reflexivity.
  - rewrite filter_cons_False by (cbn; congruence). reflexivity.
Qed.

Lemma succeeded_discovered (st : StatisticsCollector) (url : string) (flag : bool) :
  st_fetches_succeeded (get_statistics (add_discovered_url url flag st)) =
  st_fetches_succeeded (get_statistics st).
Proof. reflexivity. Qed.

Lemma succeeded_visit (st : StatisticsCollector) url size n ct :
  st_fetches_succeeded (get_statistics (add_successful_visit url size n ct st)) =
  st_fetches_succeeded (get_statistics st).
Proof. reflexivity. Qed.

Lemma after_record_post (url : string) (depth : Z) (r : fetch_result) (p : pc)
    (st : StatisticsCollector) :
  after_record url depth r = Some p →
  (post_record_pc p = if is_success (f_status_code r) then post_record_pc p else 0%nat) ∧
  (post_record_pc p ≤ 1)%nat ∧
  recorded (add_fetch_attempt url (f_status_code r) st) p.
Proof.
  unfold after_record. intros Hp.
  repeat case_match; simplify_eq; cbn [post_record_pc recorded add_fetch_attempt
    fetch_attempts]; split_and!; try done; try lia; set_solver.
Qed.

Lemma visits_inv_step s tid ev s' :
  visits_inv s → step lib c tid ev s = Some s' → visits_inv s'.
Proof.
  intros (Hws & Hv & Hcount) Hstep.
  step_cases Hstep;
    match goal with
    | Hw : workers s !! tid = Some ?w |- context [<[tid := ?w']> (workers s)] =>
        pose proof (Forall_lookup_1 _ _ _ _ Hws Hw) as Hrec;
        pose proof (sum_list_with_insert (λ x, post_record_pc (at_pc x))
                      _ _ _ w' Hw) as Hsum;
        cbn [at_pc recorded post_record_pc] in Hrec, Hsum
    end;
    try match goal with
    | Ha : after_record ?u ?d ?r = Some ?q |- _ =>
        pose proof (after_record_post u d r q (stats (shared s)) Ha)
          as (Hpost & Hle & Hnew)
    end;
    unfold visits_inv;
    cbn [shared workers stats set_stop set_queue set_pages set_stats];
    rewrite ?succeeded_snoc, ?succeeded_discovered, ?succeeded_visit;
    (split_and!;
     [ apply Forall_insert;
       [ first [ assumption
               | eapply Forall_impl; [exact Hws|]; cbn beta; intros w0 Hw0;
                 eapply recorded_mono; [|exact Hw0]; cbn; intros; set_solver ]
       | cbn [at_pc recorded]; first [exact I | assumption | tauto] ]
     | first [ assumption
             | eapply Forall_impl; [exact Hv|]; cbn; intros v (code & ? & ?);
               exists code; split; [assumption | set_solver]
             | cbn [successful_visits add_successful_visit fetch_attempts];
               apply Forall_app; split; [assumption|]; apply Forall_singleton;
               cbn [fst]; destruct Hrec as [? ?]; eauto ]
     | cbn [successful_visits add_successful_visit add_discovered_url
            add_fetch_attempt] in *;
       rewrite ?length_app in *; cbn [length] in *;
       try (destruct (is_success _)); lia ]).
Qed.

Lemma reachable_visits_inv s : reachable lib c s → visits_inv s.
Proof.
  induction 1 as [|s tid ev s' Hreach IH Hstep].
  - unfold visits_inv. cbn. split_and!.
    + apply Forall_replicate. exact I.
    + constructor.
    + induction (num_threads c); cbn; lia.
  - eapply visits_inv_step; eassumption.
Qed.

Lemma finish_inv_step s tid ev s' :
  0 ≤ pages_fetched (shared s) →
  finish_inv s → step lib c tid ev s = Some s' → finish_inv s'.
Proof.
  unfold finish_inv. intros Hpos Hfin Hstep.
  step_cases Hstep;
    match goal with
    | Hw : workers s !! tid = Some ?w |- _ =>
        pose proof (Forall_lookup_1 _ _ _ _ Hfin Hw) as Hold; cbn [at_pc] in Hold
    end;
    cbn [shared workers stop_crawling pages_fetched set_stop set_queue set_pages
         set_stats];
    (apply Forall_insert;
     [ first [ assumption
             | eapply Forall_impl; [exact Hfin|]; cbn beta; intros w0 Hw0 Hdone;
               destruct (Hw0 Hdone); [by left | right; lia] ]
     | cbn [at_pc]; intros Hdone; try discriminate Hdone;
       arith_hyps;
       first [ by left
             | right; lia
             | match goal with
               | Hb : _ && _ = true |- _ =>
                   apply andb_true_iff in Hb as [_ Hb]; right; lia
               end
             | match goal with
               | Ha : after_record _ _ _ = Some _ |- _ =>
                   exfalso; subst; unfold after_record in Ha;
                   repeat case_match; simplify_eq
               end ] ]).
Qed.

Lemma reachable_finish_inv s : reachable lib c s → finish_inv s.
Proof.
  induction 1 as [|s tid ev s' Hreach IH Hstep].
  - unfold finish_inv. cbn. apply Forall_replicate. cbn. discriminate.
  - eapply finish_inv_step; [|eassumption..].
    destruct (reachable_budget_inv lib c s Hreach) as (Hcount & _). lia.
Qed.
End StateFacts.

(** X9. In every reachable state, each fetch record and each visit
    record is for a URL that is within the site and whose
    fragment-stripped form matches no excluded extension and is
    allowed by robots.txt for the crawler's user agent. *)
Theorem records_pass_policy (lib : Urllib) (c : WebCrawler) (s : State) :
  reachable lib c s →
  (∀ url code, (url, code) ∈ fetch_attempts (stats (shared s)) →
     is_within_site lib c url = Some true ∧
     ∃ stripped, urldefrag lib url = Some stripped ∧
                 excluded_extensions_match stripped = false ∧
                 can_fetch (robot_parser c) user_agent stripped = Some true) ∧
  (∀ url, url ∈ visit_urls (stats (shared s)) →
     is_within_site lib c url = Some true ∧
     ∃ stripped, urldefrag lib url = Some stripped ∧
                 excluded_extensions_match stripped = false ∧
                 can_fetch (robot_parser c) user_agent stripped = Some true).
Proof.
  intros Hreach.
  destruct (reachable_records_inv lib c s Hreach) as (Hfa & Hv & _).
  assert (∀ url, admissible lib c url = true →
            ∃ stripped, urldefrag lib url = Some stripped ∧
                        excluded_extensions_match stripped = false ∧
                        can_fetch (robot_parser c) user_agent stripped = Some true)
    as Hadm.
  { intros url. unfold admissible.
    destruct (urldefrag lib url) as [stripped|]; [|discriminate].
    intros [H1 H2]%andb_true_iff. apply negb_true_iff in H1.
    apply bool_decide_eq_true in H2. eauto. }
  split.
  - intros url code Hin.
    destruct (proj1 (Forall_forall _ _) Hfa _ Hin) as [Hsite Ha]. cbn in *.
    split; [exact Hsite | by apply Hadm].
  - intros url Hin. unfold visit_urls in Hin.
    apply list_elem_of_fmap in Hin as ([[[u size] n] ct] & -> & Hin).
    destruct (proj1 (Forall_forall _ _) Hv _ Hin) as (Hsite & Ha & _). cbn.
    split; [exact Hsite | by apply Hadm].
Qed.

Lemma records_pass_policy_witness :
  is_within_site PyUrllib.lib Demo.crawler Demo.page_a = Some true ∧
  ∃ stripped, urldefrag PyUrllib.lib Demo.page_a = Some stripped ∧
              excluded_extensions_match stripped = false ∧
              can_fetch (robot_parser Demo.crawler) user_agent stripped = Some true.
Proof.
  assert (reachable PyUrllib.lib Demo.crawler
            (Demo.state_after Demo.crawler Demo.fetch_twice)) as Hreach.
  { apply state_after_reachable. vm_compute. eexists. reflexivity. }
  destruct (records_pass_policy PyUrllib.lib Demo.crawler _ Hreach) as [Hfetch _].
  apply (Hfetch Demo.page_a 404).
  vm_compute. apply list_elem_of_further, list_elem_of_here.
Defined.

(** X10. In every reachable state, each visit record has a positive
    size, an allowed content type, no outlinks unless its content type
    contains text/html, and a fetch record of the same URL with a 2xx
    status; and there are at most as many visit records as succeeded
    fetches. *)
Theorem visits_follow_fetches (lib : Urllib) (c : WebCrawler) (s : State) :
  reachable lib c s →
  let st := stats (shared s) in
  (∀ url size outlinks ct,
     (url, size, outlinks, ct) ∈ successful_visits st →
     0 < size ∧
     should_process_content_type ct = true ∧
     (PyStr.contains ct "text/html" = false → outlinks = 0%nat) ∧
     ∃ code, 200 ≤ code < 300 ∧ (url, code) ∈ fetch_attempts st) ∧
  (length (successful_visits st) ≤ st_fetches_succeeded (get_statistics st))%nat.
Proof.
  intros Hreach st. subst st.
  destruct (reachable_records_inv lib c s Hreach) as (_ & Hv & _).
  destruct (reachable_visits_inv lib c s Hreach) as (_ & Hrec & Hcount).
  split; [|lia].
  intros url size outlinks ct Hin.
  destruct (proj1 (Forall_forall _ _) Hv _ Hin) as (_ & _ & Hsize & Hproc & Hout).
  destruct (proj1 (Forall_forall _ _) Hrec _ Hin) as (code & Hcode & Hfetch).
  split_and!; try assumption. exists code. split; [|exact Hfetch].
  unfold is_success in Hcode. lia.
Qed.

Lemma visits_follow_fetches_witness :
  let st := stats (shared (Demo.state_after Demo.crawler Demo.visit_seed)) in
  (length (successful_visits st) ≤ st_fetches_succeeded (get_statistics st))%nat.
Proof.
  intros st.
  assert (reachable PyUrllib.lib Demo.crawler
            (Demo.state_after Demo.crawler Demo.visit_seed)) as Hreach.
  { apply state_after_reachable. vm_compute. eexists. reflexivity. }
  exact (proj2 (visits_follow_fetches PyUrllib.lib Demo.crawler _ Hreach)).
Defined.

(** X11. In every reachable state, each entry of the queue is the seed
    at depth 0 or a link within the site that starts with http, at a
    depth from 1 to [max_depth] + 1; each entry a worker processes has
    a depth from 0 to [max_depth]; and each discovery record is for a
    URL that starts with http. *)
Theorem frontier_entries (lib : Urllib) (c : WebCrawler) (s : State) :
  reachable lib c s →
  (∀ url depth, (url, depth) ∈ url_queue (shared s) →
     (url = seed_url c ∧ depth = 0) ∨
     (is_within_site lib c url = Some true ∧ PyStr.startswith url "http" = true ∧
      1 ≤ depth ≤ max_depth c + 1)) ∧
  (∀ tid w url depth,
     workers s !! tid = Some w → entry_of (at_pc w) = Some (url, depth) →
     0 ≤ depth ≤ max_depth c) ∧
  (∀ url indicator, (url, indicator) ∈ discovered_urls (stats (shared s)) →
     PyStr.startswith url "http" = true).
Proof.
  intros Hreach.
  destruct (reachable_frontier_inv lib c s Hreach) as [Hq Hws].
  destruct (reachable_records_inv lib c s Hreach) as (_ & _ & Hd).
  split_and!.
  - intros url depth Hin.
    destruct (proj1 (Forall_forall _ _) Hq _ Hin) as [[= -> ->]|Hlink];
      [by left | by right].
  - intros tid w url depth Hw He. split.
    + by apply (Forall_lookup_1 _ _ _ _ Hws Hw url depth).
    + pose proof (reachable_pc_inv lib c s tid w Hreach Hw) as Hp.
      destruct w as [p n]. cbn [at_pc] in *.
      destruct p; cbn [entry_of pc_inv] in *; simplify_eq; tauto.
  - intros url indicator Hin.
    by apply (proj1 (Forall_forall _ _) Hd (url, indicator)).
Qed.

Lemma frontier_entries_witness :
  (Demo.page_a = seed_url Demo.crawler ∧ 1 = 0) ∨
  (is_within_site PyUrllib.lib Demo.crawler Demo.page_a = Some true ∧
   PyStr.startswith Demo.page_a "http" = true ∧ 1 ≤ 1 ≤ max_depth Demo.crawler + 1).
Proof.
  assert (reachable PyUrllib.lib Demo.crawler
            (Demo.state_after Demo.crawler Demo.visit_seed)) as Hreach.
  { apply state_after_reachable. vm_compute. eexists. reflexivity. }
  apply (proj1 (frontier_entries PyUrllib.lib Demo.crawler _ Hreach) Demo.page_a 1).
  vm_compute. apply list_elem_of_here.
Defined.

(** X12. In every reachable state, a worker that has left its loop
    implies that the stop flag is up with [pages_fetched] at least
    [max_pages], or that [pages_fetched] is positive; with a positive
    [max_pages], no worker leaves its loop before a page was
    reserved. *)
Theorem finished_after_dispatch (lib : Urllib) (c : WebCrawler) (s : State)
    (tid : nat) (n : nat) :
  reachable lib c s →
  workers s !! tid = Some (mkWorker Finished n) →
  ((stop_crawling (shared s) = true ∧ max_pages c ≤ pages_fetched (shared s)) ∨
   0 < pages_fetched (shared s)) ∧
  (0 < max_pages c → 0 < pages_fetched (shared s)).
Proof.
  intros Hreach Hw.
  pose proof (Forall_lookup_1 _ _ _ _ (reachable_finish_inv lib c s Hreach) Hw eq_refl)
    as Hfin.
  destruct (reachable_budget_inv lib c s Hreach) as (_ & _ & Hstop).
  split.
  - destruct Hfin as [Hup|Hpos]; [left | by right]. auto.
  - intros Hmax. destruct Hfin as [Hup|Hpos]; [|exact Hpos].
    specialize (Hstop Hup). lia.
Qed.

Lemma finished_after_dispatch_witness :
  0 < pages_fetched (shared (Demo.state_after Demo.crawler Demo.idle_exit)).
Proof.
  assert (reachable PyUrllib.lib Demo.crawler
            (Demo.state_after Demo.crawler Demo.idle_exit)) as Hreach.
  { apply state_after_reachable. vm_compute. eexists. reflexivity. }
  apply (finished_after_dispatch PyUrllib.lib Demo.crawler _ 0 5 Hreach).
  - vm_compute. reflexivity.
  - vm_compute. reflexivity.
Defined.

(** X13. When robots.txt allows no URL for the crawler's user agent,
    in every reachable state no page has been reserved or fetched,
    and with a positive [max_pages] no worker has left its loop
    through one of its exits. *)
Theorem refusing_robots_blocks_crawl (lib : Urllib) (c : WebCrawler) (s : State) :
  (∀ url, can_fetch (robot_parser c) user_agent url = Some false) →
  reachable lib c s →
  fetch_attempts (stats (shared s)) = [] ∧
  pages_fetched (shared s) = 0 ∧
  (0 < max_pages c → ∀ tid w, workers s !! tid = Some w → at_pc w ≠ Finished).
Proof.
  intros Hrobots Hreach.
  assert (∀ url, admissible lib c url = false) as Hnone.
  { intros url. unfold admissible.
    destruct (urldefrag lib url) as [stripped|]; [|reflexivity]. rewrite Hrobots.
    rewrite bool_decide_eq_false_2 by discriminate. apply andb_false_r. }
  destruct (reachable_records_inv lib c s Hreach) as (Hfa & _ & _).
  assert (fetch_attempts (stats (shared s)) = []) as Hempty.
  { destruct (fetch_attempts (stats (shared s))) as [|a l]; [reflexivity|].
    apply Forall_cons in Hfa as [[_ Ha] _]. rewrite Hnone in Ha. discriminate. }
  assert (in_flight (workers s) = 0%nat) as Hflight.
  { unfold in_flight.
    assert (Forall (λ w, in_flight_pc (at_pc w) = 0%nat) (workers s)) as Hzero.
    { apply Forall_lookup. intros tid w Hw.
      pose proof (reachable_pc_facts lib c s tid w Hreach Hw) as Hf.
      destruct w as [p n]. cbn [at_pc] in *.
      destruct p; cbn [in_flight_pc pc_facts] in *; try reflexivity;
        rewrite Hnone in Hf; discriminate. }
    induction Hzero as [|w ws Hw _ IH]; [reflexivity|]. cbn. rewrite Hw, IH. reflexivity. }
  destruct (reachable_budget_inv lib c s Hreach) as (Hcount & _ & Hstop).
  rewrite Hempty, Hflight in Hcount. cbn in Hcount.
  split_and!; [exact Hempty | exact Hcount |].
  intros Hmax tid w Hw Hdone.
  pose proof (Forall_lookup_1 _ _ _ _ (reachable_finish_inv lib c s Hreach) Hw Hdone)
    as [Hup|Hpos]; [specialize (Hstop Hup)|]; lia.
Qed.

Lemma refusing_robots_blocks_crawl_witness :
  let s := Demo.state_after Demo.crawler_no_robots (Demo.taus 0 12) in
  fetch_attempts (stats (shared s)) = [] ∧ pages_fetched (shared s) = 0.
Proof.
  intros s.
  assert (reachable PyUrllib.lib Demo.crawler_no_robots s) as Hreach.
  { apply state_after_reachable. vm_compute. eexists. reflexivity. }
  destruct (refusing_robots_blocks_crawl PyUrllib.lib Demo.crawler_no_robots s)
    as (Hfetch & Hpages & _); [reflexivity | exact Hreach |].
  split; assumption.
Defined.

Section DiscoveryCount.
Variables (lib : Urllib) (c : WebCrawler).

Lemma after_record_links url depth r p :
  after_record url depth r = Some p → links_done p = 0%nat ∧ links_ok p.
Proof.
  unfold after_record. intros Hp. repeat case_match; simplify_eq; done.
Qed.

Lemma discovery_inv_step s tid ev s' :
  discovery_inv s → step lib c tid ev s = Some s' → discovery_inv s'.
Proof.
  intros (Hok & Hcount) Hstep.
  step_cases Hstep;
    match goal with
    | Hw : workers s !! tid = Some ?w |- context [<[tid := ?w']> (workers s)] =>
        pose proof (Forall_lookup_1 _ _ _ _ Hok Hw) as Hmine;
        pose proof (sum_list_with_insert (λ x, links_done (at_pc x))
                      _ _ _ w' Hw) as Hsum;
        cbn [at_pc links_done links_ok length] in Hmine, Hsum
    end;
    try match goal with
    | Ha : after_record _ _ _ = Some _ |- _ =>
        apply after_record_links in Ha as [Hzero Hnew]; rewrite ?Hzero in Hsum
    end;
    unfold discovery_inv, outlinks_total in *;
    cbn [shared workers stats set_stop set_queue set_pages set_stats
         discovered_urls successful_visits add_fetch_attempt add_discovered_url
         add_successful_visit] in *;
    rewrite ?length_app, ?sum_list_with_app in *; cbn [length sum_list_with snd fst] in *;
    (split; [apply Forall_insert; [assumption|];
             cbn [at_pc links_ok length]; first [exact I | assumption | lia]
            | lia]).
Qed.

Lemma reachable_discovery_inv s : reachable lib c s → discovery_inv s.
Proof.
  induction 1 as [|s tid ev s' Hreach IH Hstep].
  - unfold discovery_inv, outlinks_total. cbn. split.
    + apply Forall_replicate. exact I.
    + induction (num_threads c); cbn; lia.
  - eapply discovery_inv_step; eassumption.
Qed.
End DiscoveryCount.

(** X14. In every reachable state, the number of discovery records is
    the sum of the outlink counts of the visit records plus the links
    already recorded for the pages whose visit is not recorded yet:
    those that workers are still processing, and those a worker was
    processing when [urlparse] raised on a link.  Once all workers
    have left their loops, [total_urls_extracted] of the snapshot is
    the sum of the outlink counts of the visit records. *)
Theorem discoveries_match_outlinks (lib : Urllib) (c : WebCrawler) (s : State) :
  reachable lib c s →
  let st := stats (shared s) in
  length (discovered_urls st) =
    (outlinks_total st + sum_list_with (λ w, links_done (at_pc w)) (workers s))%nat ∧
  (Forall (λ w, at_pc w = Finished) (workers s) →
   st_total_urls_extracted (get_statistics st) = outlinks_total st).
Proof.
  intros Hreach st. subst st.
  destruct (reachable_discovery_inv lib c s Hreach) as [_ Hcount].
  split; [exact Hcount|].
  intros Hdone. cbn [get_statistics st_total_urls_extracted]. rewrite Hcount.
  assert (sum_list_with (λ w, links_done (at_pc w)) (workers s) = 0%nat) as Hzero.
  { clear Hcount. induction Hdone as [|w ws Hw _ IH]; [reflexivity|].
    cbn. rewrite Hw, IH. reflexivity. }
  lia.
Qed.

Lemma discoveries_match_outlinks_witness :
  let st := stats (shared (Demo.state_after Demo.crawler Demo.visit_seed)) in
  length (discovered_urls st) =
    (outlinks_total st +
     sum_list_with (λ w, links_done (at_pc w))
       (workers (Demo.state_after Demo.crawler Demo.visit_seed)))%nat.
Proof.
  intros st.
  assert (reachable PyUrllib.lib Demo.crawler
            (Demo.state_after Demo.crawler Demo.visit_seed)) as Hreach.
  { apply state_after_reachable. vm_compute. eexists. reflexivity. }
  exact (proj1 (discoveries_match_outlinks PyUrllib.lib Demo.crawler _ Hreach)).
Defined.

(** X15. In every reachable state, a worker that is about to record
    a fetch holds a result of [fetch_page], whose content type is
    [None] only together with the content, and the code after
    [add_fetch_attempt] reaches its next point without calling
    [lower()] on [None]; a worker past the tests on the fetch result
    holds a content type that is a string and is accepted by
    [should_process_content_type]. *)
Theorem content_type_is_string (lib : Urllib) (c : WebCrawler) (s : State)
    (tid : nat) (w : Worker) :
  reachable lib c s →
  workers s !! tid = Some w →
  match at_pc w with
  | RecordFetch url depth r =>
      (∃ o, r = fetch_page o) ∧
      (f_content_type r = None → f_content r = None) ∧
      is_Some (after_record url depth r)
  | ExtractLinks _ _ r | Discover _ _ r _ _ | CheckVisited _ _ r _ _ _
  | QueuePut _ _ r _ _ _ | RecordVisit _ _ r _ =>
      ∃ ct, f_content_type r = Some ct ∧ should_process_content_type ct = true
  | _ => True
  end.
Proof.
  intros Hreach Hw.
  pose proof (reachable_pc_inv lib c s tid w Hreach Hw) as Hi.
  pose proof (reachable_pc_facts lib c s tid w Hreach Hw) as Hf.
  destruct w as [p n]. cbn [at_pc] in *.
  destruct p; cbn [pc_inv pc_facts] in *; try exact I;
    try (destruct Hf as (_ & (_ & content & ct & _ & _ & Hct & _ & Hproc & _) & _);
         by exists ct).
  destruct Hi as (_ & _ & o & ->). split_and!.
  - by exists o.
  - destruct o; cbn; done.
  - destruct o; unfold after_record; cbn; repeat case_match; eauto.
Qed.

Lemma content_type_is_string_witness :
  ∃ ct, f_content_type (fetch_page (Responds 200 "<html>" (Some "text/html; charset=utf-8")))
        = Some ct ∧
        should_process_content_type ct = true.
Proof.
  assert (reachable PyUrllib.lib Demo.crawler
            (Demo.state_after Demo.crawler (firstn 10 Demo.visit_seed))) as Hreach.
  { apply state_after_reachable. vm_compute. eexists. reflexivity. }
  exact (content_type_is_string PyUrllib.lib Demo.crawler _ 0
           (mkWorker (QueuePut Demo.seed 0
                        (fetch_page (Responds 200 "<html>"
                                       (Some "text/html; charset=utf-8")))
                        [Demo.page_a; Demo.page_a] Demo.page_a [Demo.page_a]) 0)
           Hreach eq_refl).
Defined.

Section SeedFirst.
Variables (lib : Urllib) (c : WebCrawler).

Lemma seed_first_step s tid ev s' :
  reachable lib c s → seed_first c s →
  step lib c tid ev s = Some s' → seed_first c s'.
Proof.
  intros Hreach Hseed Hstep.
  destruct (reachable_visits_inv lib c s Hreach) as (Hrec & _ & _).
  unfold seed_first in Hseed.
  destruct (fetch_attempts (stats (shared s))) as [|a l] eqn:Hfa.
  - destruct Hseed as [Hq Hws].
    step_cases Hstep;
      match goal with
      | Hw : workers s !! tid = Some ?w |- _ =>
          pose proof (Forall_lookup_1 _ _ _ _ Hws Hw) as Hmine;
          pose proof (Forall_lookup_1 _ _ _ _ Hrec Hw) as Hdone;
          cbn [at_pc entry_of recorded] in Hmine, Hdone
      end;
      try (apply proj2 in Hdone; rewrite Hfa in Hdone; by apply elem_of_nil in Hdone);
      unfold seed_first;
      cbn [shared workers stats url_queue set_stop set_queue set_pages set_stats
           fetch_attempts add_fetch_attempt add_discovered_url add_successful_visit];
      rewrite ?Hfa; cbn [app fst];
      try (exact (Hmine _ _ eq_refl));
      (split;
       [ first [ assumption
               | match goal with
                 | Hq' : Forall _ (_ :: _) |- _ =>
                     apply Forall_cons in Hq' as [_ Htail]; exact Htail
                 end
               | match goal with
                 | Hempty : url_queue (shared s) = [] |- _ => by rewrite Hempty
                 end ]
       | apply Forall_insert; [assumption|]; cbn [at_pc entry_of];
         intros u d He; simplify_eq;
         first [ exact (Hmine _ _ eq_refl)
               | match goal with
                 | Hq' : Forall _ (_ :: _) |- _ =>
                     apply Forall_cons in Hq' as [Hhead _]; exact Hhead
                 end ] ]).
  - step_cases Hstep; unfold seed_first;
      cbn [shared workers stats url_queue set_stop set_queue set_pages set_stats
           fetch_attempts add_fetch_attempt add_discovered_url add_successful_visit];
      rewrite ?Hfa; cbn [app]; exact Hseed.
Qed.

Lemma reachable_seed_first s : reachable lib c s → seed_first c s.
Proof.
  induction 1 as [|s tid ev s' Hreach IH Hstep].
  - unfold seed_first. cbn. split.
    + apply Forall_singleton. reflexivity.
    + apply Forall_replicate. cbn. discriminate.
  - eapply seed_first_step; eassumption.
Qed.
End SeedFirst.

(** X16. In every reachable state, the first fetch record, if there is
    one, is for the seed URL. *)
Theorem first_fetch_is_seed (lib : Urllib) (c : WebCrawler) (s : State)
    (url : string) (code : Z) (rest : list (string * Z)) :
  reachable lib c s →
  fetch_attempts (stats (shared s)) = (url, code) :: rest →
  url = seed_url c.
Proof.
  intros Hreach Hfa. pose proof (reachable_seed_first lib c s Hreach) as Hseed.
  unfold seed_first in Hseed. rewrite Hfa in Hseed. exact Hseed.
Qed.

Lemma first_fetch_is_seed_witness : Demo.seed = seed_url Demo.crawler.
Proof.
  apply (first_fetch_is_seed PyUrllib.lib Demo.crawler
           (Demo.state_after Demo.crawler Demo.fetch_twice) Demo.seed 200
           [(Demo.page_a, 404); (Demo.page_a, 404)]).
  - apply state_after_reachable. vm_compute. eexists. reflexivity.
  - vm_compute. reflexivity.
Defined.

(** * The CSV rows and the report *)

Lemma replace_comma_absent (url : string) :
  ","%char ∉ list_ascii_of_string (replace_comma url).
Proof.
  induction url as [|ch url IH]; simpl; [set_solver|].
  rewrite elem_of_cons. intros [Hhead|Hin]; [|contradiction].
  destruct (Ascii.eqb_spec ch ","); [discriminate | congruence].
Qed.

Lemma replace_comma_length (url : string) :
  String.length (replace_comma url) = String.length url.
Proof. induction url; simpl; congruence. Qed.

Lemma replace_comma_fixed (url : string) :
  ","%char ∉ list_ascii_of_string url → replace_comma url = url.
Proof.
  induction url as [|ch url IH]; simpl; [reflexivity|].
  rewrite elem_of_cons. intros Hnot.
  destruct (Ascii.eqb_spec ch ",") as [->|_]; [tauto|].
  rewrite IH; [reflexivity | tauto].
Qed.

(** X17. Each CSV file gets its header row and then one row per
    record, in the order of the records: the row after the header and
    [i] further rows holds the cells of record [i], the URL with each
    comma replaced by an underscore and the other fields as recorded.
    Every row is as wide as its header; the URL written in a row has
    no comma, has the length of the recorded URL and is the recorded
    URL itself when that has no comma. *)
Theorem csv_rows (st : StatisticsCollector) :
  (fetch_rows st !! 0%nat = Some [Text "URL"; Text "Status"] ∧
   visit_rows st !! 0%nat =
     Some [Text "URL"; Text "Size (bytes)"; Text "# Outlinks"; Text "Content-Type"] ∧
   urls_rows st !! 0%nat = Some [Text "URL"; Text "Indicator"]) ∧
  (length (fetch_rows st) = S (length (fetch_attempts st)) ∧
   length (visit_rows st) = S (length (successful_visits st)) ∧
   length (urls_rows st) = S (length (discovered_urls st))) ∧
  (∀ i url status, fetch_attempts st !! i = Some (url, status) →
     fetch_rows st !! S i = Some [Text (replace_comma url); Number status]) ∧
  (∀ i url size outlinks content_type,
     successful_visits st !! i = Some (url, size, outlinks, content_type) →
     visit_rows st !! S i =
       Some [Text (replace_comma url); Number size; Number (Z.of_nat outlinks);
             Text content_type]) ∧
  (∀ i url indicator, discovered_urls st !! i = Some (url, indicator) →
     urls_rows st !! S i = Some [Text (replace_comma url); Text indicator]) ∧
  (Forall (λ row, length row = 2%nat) (fetch_rows st) ∧
   Forall (λ row, length row = 4%nat) (visit_rows st) ∧
   Forall (λ row, length row = 2%nat) (urls_rows st)) ∧
  (∀ row u, row ∈ (fetch_rows st ++ visit_rows st ++ urls_rows st)%list →
     row_url row = Some u → ","%char ∉ list_ascii_of_string u) ∧
  (∀ url, String.length (replace_comma url) = String.length url ∧
          (","%char ∉ list_ascii_of_string url → replace_comma url = url)).
Proof.
  split_and!.
  - reflexivity.
  - reflexivity.
  - reflexivity.
  - unfold fetch_rows. cbn. by rewrite length_fmap.
  - unfold visit_rows. cbn. by rewrite length_fmap.
  - unfold urls_rows. cbn. by rewrite length_fmap.
  - intros i url status Hi. unfold fetch_rows.
    rewrite lookup_cons, list_lookup_fmap, Hi. reflexivity.
  - intros i url size outlinks content_type Hi. unfold visit_rows.
    rewrite lookup_cons, list_lookup_fmap, Hi. reflexivity.
  - intros i url indicator Hi. unfold urls_rows.
    rewrite lookup_cons, list_lookup_fmap, Hi. reflexivity.
  - unfold fetch_rows. apply Forall_cons. split; [reflexivity|].
    apply Forall_fmap, Forall_forall. intros; reflexivity.
  - unfold visit_rows. apply Forall_cons. split; [reflexivity|].
    apply Forall_fmap, Forall_forall. intros; reflexivity.
  - unfold urls_rows. apply Forall_cons. split; [reflexivity|].
    apply Forall_fmap, Forall_forall. intros; reflexivity.
  - intros row u Hin Hu.
    assert (u = "URL" ∨ ∃ url, u = replace_comma url) as [->|[url ->]].
    { unfold fetch_rows, visit_rows, urls_rows in Hin.
      rewrite !elem_of_app, !elem_of_cons, !list_elem_of_fmap in Hin.
      destruct Hin as [[->|(a & -> & _)]|[[->|(a & -> & _)]|[->|(a & -> & _)]]];
        cbn in Hu; injection Hu as <-; eauto. }
    + cbn. intros Hc.
      repeat (apply elem_of_cons in Hc as [Hc|Hc]; [discriminate|]).
      by apply elem_of_nil in Hc.
    + apply replace_comma_absent.
  - intros url. split; [apply replace_comma_length | apply replace_comma_fixed].
Qed.

Lemma file_size_lines_found (cs : list call) :
  ∃ sizes,
    file_size_lines (get_statistics (exec_all cs StatisticsCollector_init)) = Some sizes ∧
    length sizes = 5%nat.
Proof.
  destruct (histograms_consistent cs) as (_ & _ & _ & Hdom).
  unfold file_size_lines.
  destruct (mapM _ size_ranges) as [sizes|] eqn:Hm.
  - exists sizes. split; [reflexivity|]. apply length_mapM in Hm. by rewrite <- Hm.
  - exfalso. apply eq_None_not_Some in Hm. apply Hm, mapM_is_Some.
    apply Forall_forall. intros k Hk. cbn.
    apply Hdom, elem_of_dom in Hk as [n Hn].
    cbn [get_statistics st_file_sizes]. rewrite Hn. cbn. eauto.
Qed.

(** X18. After any sequence of calls, [write_report] finds all five
    file-size keys (no [KeyError]) and writes 31 lines plus one line
    per entry of the status code histogram and one per entry of the
    content type histogram; the status codes it lists are exactly the
    codes carried by some fetch record, each once and in ascending
    order. *)
Theorem report_after_calls (c : WebCrawler) (cs : list call)
    (student_name usc_id : string) :
  let st := exec_all cs StatisticsCollector_init in
  let snap := get_statistics st in
  (∃ lines,
     write_report c st student_name usc_id = Some lines ∧
     length lines = (31 + size (status_codes st) + size (content_types st))%nat) ∧
  Sorted Z.le (report_status_codes snap) ∧
  NoDup (report_status_codes snap) ∧
  (∀ code, code ∈ report_status_codes snap ↔ (0 < attempts_with_code code st)%nat).
Proof.
  cbn zeta.
  assert (∀ m : gmap Z nat, merge_sort Z.le (elements (dom m)) ≡ₚ elements (dom m))
    as Hperm by (intros; apply merge_sort_Permutation).
  split_and!.
  - destruct (file_size_lines_found cs) as (sizes & Hsizes & Hlen).
    unfold write_report. rewrite Hsizes. cbn [mbind option_bind].
    eexists. split; [reflexivity|].
    rewrite !length_app, !length_fmap, Hlen. cbn [length].
    unfold report_status_codes, report_content_types.
    rewrite (Permutation_length (Hperm _)).
    rewrite (Permutation_length (merge_sort_Permutation _ _)).
    cbn [get_statistics st_status_codes st_content_types].
    rewrite length_map_to_list.
    assert (∀ m : gmap Z nat, length (elements (dom m)) = size m) as Hsz
      by (intros m; rewrite <- size_dom; reflexivity).
    rewrite Hsz. lia.
  - unfold report_status_codes. apply Sorted_merge_sort. apply _.
  - unfold report_status_codes. rewrite Hperm. apply NoDup_elements.
  - intros code. unfold report_status_codes. rewrite Hperm, elem_of_elements.
    cbn [get_statistics st_status_codes]. rewrite elem_of_dom.
    destruct (status_codes_counts cs) as [Hget Hpos].
    rewrite <- Hget. unfold counter_get.
    destruct (status_codes _ !! code) as [n|] eqn:Hn; cbn.
    + split; [intros _; specialize (Hpos code n Hn); lia | eauto].
    + split; [intros [? ?]; discriminate | lia].
Qed.

(** * A crawl with one worker *)

Lemma reachable_visited (lib : Urllib) (c : WebCrawler) (s : State) :
  reachable lib c s →
  visited_urls (stats (shared s)) = list_to_set (visit_urls (stats (shared s))).
Proof.
  intros Hreach. destruct (stats_trace lib c s Hreach) as (cs & _ & ->).
  apply visited_are_visits.
Qed.

Lemma extract_links_fixed (lib : Urllib) (anchors : list string) :
  (∀ u v, urldefrag lib u = Some v → urldefrag lib v = Some v) →
  Forall (λ u, urldefrag lib u = Some u) (extract_links lib anchors).
Proof.
  intros Hidem. induction anchors as [|a anchors IH]; cbn [extract_links];
    [constructor|].
  destruct (urldefrag lib a) as [u|] eqn:Ha; [|constructor].
  destruct (PyStr.startswith u "http"); [|exact IH].
  constructor; [by eapply Hidem | exact IH].
Qed.

Lemma after_record_solo (lib : Urllib) (st : StatisticsCollector) url depth r p :
  after_record url depth r = Some p →
  urldefrag lib url = Some url → url ∉ visited_urls st →
  solo_pc lib (add_fetch_attempt url (f_status_code r) st) p.
Proof.
  unfold after_record. intros Hp Hfix Hnew.
  repeat case_match; simplify_eq; cbn [solo_pc add_fetch_attempt visited_urls]; done.
Qed.

Section Solo.
Variables (lib : Urllib) (c : WebCrawler).
Hypothesis defrag_idempotent : ∀ u v, urldefrag lib u = Some v → urldefrag lib v = Some v.

Lemma solo_inv_step s tid ev s' :
  reachable lib c s → solo_inv lib s →
  step lib c tid ev s = Some s' → solo_inv lib s'.
Proof.
  intros Hreach (w & Hws & Hpc & Hq & Hnodup) Hstep.
  pose proof (reachable_visited lib c s Hreach) as Hvis.
  unfold step in Hstep. rewrite Hws in Hstep.
  destruct tid as [|tid]; [|destruct tid; discriminate].
  cbn [lookup list_lookup] in Hstep.
  destruct (worker_step lib c ev w (shared s)) as [[w' sh']|] eqn:Hs; [|discriminate].
  injection Hstep as <-. destruct w as [p n]. cbn [at_pc] in Hpc.
  unfold solo_inv. cbn [workers shared].
  exists w'. split; [reflexivity|].
  worker_cases Hs;
    cbn [at_pc solo_pc stats url_queue visited_urls set_stop set_queue set_pages
         set_stats add_fetch_attempt add_discovered_url] in *;
    try match goal with
    | Hq' : Forall _ (_ :: _) |- _ => apply Forall_cons in Hq' as [Hhead Htail]
    end;
    try match goal with
    | Hempty : url_queue (shared s) = [] |- _ => rewrite Hempty
    end;
    unfold visit_urls in *;
    cbn [successful_visits add_fetch_attempt add_discovered_url] in *;
    (split_and!; try first [exact I | assumption | tauto]).
  - (* ValidCheck passed *)
    match goal with
    | Hv : is_valid_url _ _ _ _ = Some true |- _ =>
        unfold is_valid_url, is_visited in Hv; rewrite Hpc in Hv;
        cbn [mbind option_bind] in Hv;
        case_bool_decide; [discriminate | assumption]
    end.
  - (* RecordFetch *)
    destruct Hpc as [Hfix Hnew]. by eapply after_record_solo.
  - (* ExtractLinks *)
    by apply extract_links_fixed.
  - (* Discover, within the site: the link *)
    destruct Hpc as (_ & _ & [Hl _]%Forall_cons). exact Hl.
  - (* Discover, within the site: the links left *)
    destruct Hpc as (_ & _ & [_ Hp]%Forall_cons). exact Hp.
  - (* Discover, outside the site *)
    destruct Hpc as (_ & _ & [_ Hp]%Forall_cons). exact Hp.
  - (* QueuePut *)
    destruct Hpc as (_ & _ & Hl & _).
    apply Forall_app. split; [assumption|]. by apply Forall_singleton.
  - (* RecordVisit, the division raising *)
    destruct Hpc as [_ Hnew]. cbn [successful_visits add_successful_visit].
    rewrite fmap_app. apply NoDup_app. split_and!; [assumption | | apply NoDup_singleton].
    intros u Hu [= ->]%list_elem_of_singleton. cbn in Hnew.
    apply Hnew. rewrite Hvis. by apply elem_of_list_to_set.
  - (* RecordVisit *)
    destruct Hpc as [_ Hnew]. cbn [successful_visits add_successful_visit].
    rewrite fmap_app. apply NoDup_app. split_and!; [assumption | | apply NoDup_singleton].
    intros u Hu [= ->]%list_elem_of_singleton. cbn in Hnew.
    apply Hnew. rewrite Hvis. by apply elem_of_list_to_set.
Qed.

Lemma reachable_solo_inv s :
  num_threads c = 1%nat → urldefrag lib (seed_url c) = Some (seed_url c) →
  reachable lib c s → solo_inv lib s.
Proof.
  intros Hone Hseed. induction 1 as [|s tid ev s' Hreach IH Hstep].
  - unfold solo_inv, initial. rewrite Hone. cbn. eexists. split_and!; try done.
    + by apply Forall_singleton.
    + apply NoDup_nil_2.
  - eapply solo_inv_step; eassumption.
Qed.
End Solo.

(** X19. With a single worker, a [urldefrag] that returns its own
    results unchanged and a seed without fragment, in every reachable state
    no URL has two visit records, and the URL whose fetch the worker is
    about to record has no visit record. *)
Theorem single_worker_visits_once (lib : Urllib) (c : WebCrawler) (s : State) :
  num_threads c = 1%nat →
  (∀ u v, urldefrag lib u = Some v → urldefrag lib v = Some v) →
  urldefrag lib (seed_url c) = Some (seed_url c) →
  reachable lib c s →
  NoDup (visit_urls (stats (shared s))) ∧
  (∀ tid url depth r n,
     workers s !! tid = Some (mkWorker (RecordFetch url depth r) n) →
     url ∉ visit_urls (stats (shared s))).
Proof.
  intros Hone Hidem Hseed Hreach.
  destruct (reachable_solo_inv lib c Hidem s Hone Hseed Hreach)
    as (w & Hws & Hpc & _ & Hnodup).
  split; [exact Hnodup|].
  intros tid url depth r n Hw. rewrite Hws in Hw.
  destruct tid as [|tid]; [|destruct tid; discriminate].
  injection Hw as ->. cbn [at_pc solo_pc] in Hpc. destruct Hpc as [_ Hnew].
  rewrite (reachable_visited lib c s Hreach) in Hnew.
  by rewrite elem_of_list_to_set in Hnew.
Qed.

Lemma single_worker_visits_once_witness :
  NoDup (visit_urls (stats (shared (Demo.state_after Demo.crawler Demo.fetch_twice)))).
Proof.
  apply (single_worker_visits_once PyUrllib.lib Demo.crawler
           (Demo.state_after Demo.crawler Demo.fetch_twice)).
  - reflexivity.
  - intros u v [= <-]. cbn [urldefrag PyUrllib.lib]. unfold PyUrllib.defrag.
    f_equal. apply split_head_fixed, split_head_absent.
  - reflexivity.
  - apply state_after_reachable. vm_compute. eexists. reflexivity.
Defined.
